(** * dns-spa-2: the CAA decoder and the lookup of [src/src/App.svelte]

    A shallow embedding of the script part of [App.svelte]: [parseCAA],
    [queryDNS] and [handleLookup], with the JavaScript built-ins they call.

    Strings.  A JavaScript string is a sequence of 16-bit code units; this
    development works on the strings whose code units are below 256
    (Latin-1), which is Rocq's [string] over [ascii].  Every string the
    decoder builds is in that range, see [fromCharCode_parseInt16_pair]. *)

From Stdlib Require Import ZArith Lia List Bool Ascii String DecimalString.
Import ListNotations.

Local Open Scope string_scope.
Local Open Scope Z_scope.

(** ** JavaScript built-ins *)

Module JS.

(** *** Character classes *)

Definition code (c : ascii) : Z := Z.of_N (N_of_ascii c).

(** [\s] of a regular expression and the characters [trim] removes:
    WhiteSpace and LineTerminator, here TAB LF VT FF CR SP NBSP. *)
Definition isWhiteSpace (c : ascii) : bool :=
  let n := code c in
  ((9 <=? n) && (n <=? 13)) || (n =? 32) || (n =? 160).

(** The characters [.] does not match. *)
Definition isLineTerminator (c : ascii) : bool :=
  let n := code c in (n =? 10) || (n =? 13).

(** [\d] *)
Definition isDigit (c : ascii) : bool :=
  let n := code c in (48 <=? n) && (n <=? 57).

(** Value of a hexadecimal digit. *)
Definition hexval (c : ascii) : option Z :=
  let n := code c in
  if (48 <=? n) && (n <=? 57) then Some (n - 48)
  else if (97 <=? n) && (n <=? 102) then Some (n - 87)
  else if (65 <=? n) && (n <=? 70) then Some (n - 55)
  else None.

Definition isHexDigit (c : ascii) : bool :=
  match hexval c with Some _ => true | None => false end.

(** [[\da-fA-F\s]] *)
Definition isHexOrSpace (c : ascii) : bool :=
  isDigit c || (let n := code c in
                ((97 <=? n) && (n <=? 102)) || ((65 <=? n) && (n <=? 70)))
  || isWhiteSpace c.

(** *** Numbers: the integers and NaN are all the decoder computes with. *)

Inductive number :=
| NaN
| Int (z : Z).

Definition mul (a b : number) : number :=
  match a, b with
  | Int x, Int y => Int (x * y)
  | _, _ => NaN
  end.

Definition add (a b : number) : number :=
  match a, b with
  | Int x, Int y => Int (x + y)
  | _, _ => NaN
  end.

Definition ToIntegerOrInfinity (a : number) : Z :=
  match a with
  | NaN => 0
  | Int z => z
  end.

(** Number to string, as a template literal prints it. *)
Definition toString (a : number) : string :=
  match a with
  | NaN => "NaN"
  | Int z => NilZero.string_of_int (Z.to_int z)
  end.

(** *** Completions: a call returns or throws. *)

Inductive exn :=
| TypeError (msg : string)
| Error (msg : string).

Definition message (e : exn) : string :=
  match e with
  | TypeError m => m
  | Error m => m
  end.

Inductive completion (A : Type) :=
| Normal (a : A)
| Throw (e : exn).
Arguments Normal {A} a.
Arguments Throw {A} e.

Definition cbind {A B} (c : completion A) (k : A -> completion B) : completion B :=
  match c with
  | Normal a => k a
  | Throw e => Throw e
  end.

(** [try { body } catch (err) { handler }] *)
Definition try_catch {A} (body : completion A) (handler : exn -> completion A)
  : completion A :=
  match body with
  | Normal a => Normal a
  | Throw e => handler e
  end.

(** *** String methods *)

(** [s.replace(/\s+/g, '')] *)
Fixpoint remove_spaces (s : string) : string :=
  match s with
  | EmptyString => EmptyString
  | String c s' => if isWhiteSpace c then remove_spaces s'
                   else String c (remove_spaces s')
  end.

(** [s.substr(start, length)]; [None] is an omitted length. *)
Definition substr (s : string) (start : number) (len : option number) : string :=
  let size := Z.of_nat (String.length s) in
  let intStart := ToIntegerOrInfinity start in
  let intStart := if intStart <? 0 then Z.max (size + intStart) 0
                  else Z.min intStart size in
  let intLength := match len with
                   | None => size
                   | Some l => ToIntegerOrInfinity l
                   end in
  let intLength := Z.min (Z.max intLength 0) size in
  let intEnd := Z.min (intStart + intLength) size in
  String.substring (Z.to_nat intStart) (Z.to_nat (intEnd - intStart)) s.

(** [parseInt(s, 16)]: leading white space, a sign, a [0x] prefix, then the
    longest run of hexadecimal digits; NaN when that run is empty.  The value
    is the exact integer, as it is in JavaScript for the strings of at most
    two characters that the decoder passes. *)
Fixpoint trimStart (s : string) : string :=
  match s with
  | EmptyString => EmptyString
  | String c s' => if isWhiteSpace c then trimStart s' else s
  end.

Fixpoint hexdigits (s : string) (acc : option Z) : option Z :=
  match s with
  | EmptyString => acc
  | String c s' =>
      match hexval c with
      | Some d => hexdigits s' (Some (16 * match acc with Some a => a | None => 0 end + d))
      | None => acc
      end
  end.

Definition strip_sign (s : string) : bool * string :=
  match s with
  | String c s' =>
      if Ascii.eqb c "-" then (true, s')
      else if Ascii.eqb c "+" then (false, s')
      else (false, s)
  | EmptyString => (false, s)
  end.

Definition strip_0x (s : string) : string :=
  match s with
  | String c0 (String c1 s') =>
      if Ascii.eqb c0 "0" && (Ascii.eqb c1 "x" || Ascii.eqb c1 "X") then s' else s
  | _ => s
  end.

Definition parseInt16 (s : string) : number :=
  let (neg, s1) := strip_sign (trimStart s) in
  match hexdigits (strip_0x s1) None with
  | None => NaN
  | Some v => Int (if neg then - v else v)
  end.

(** [String.fromCharCode(n)]: the code unit [ToUint16 n].  Strings here hold
    code units below 256, so the unit is cut to its low 8 bits; the decoder
    only calls it on the value of two hexadecimal digits, which is below 256
    ([fromCharCode_parseInt16_pair]). *)
Definition fromCharCode (n : number) : ascii :=
  ascii_of_N (Z.to_N (ToIntegerOrInfinity n mod 65536)).

(** [s.match(/.{2}/g)]: every match, scanning from the left; [null] ([None])
    when there is none. *)
Fixpoint matches_dot2 (s : string) : list string :=
  match s with
  | EmptyString => []
  | String a s' =>
      match s' with
      | EmptyString => []
      | String b rest =>
          if negb (isLineTerminator a) && negb (isLineTerminator b)
          then String a (String b EmptyString) :: matches_dot2 rest
          else matches_dot2 s'
      end
  end.

Definition match_dot2_g (s : string) : option (list string) :=
  match matches_dot2 s with
  | [] => None
  | l => Some l
  end.

(** [arr.join('')] for an array of one-character strings. *)
Definition join (l : list ascii) : string := string_of_list_ascii l.

(** *** A backtracking matcher for the pieces the regular expressions use.
    The continuation [k] gets the text a piece consumed and the rest; a
    greedy piece tries its longest match first and gives characters back
    while [k] fails. *)

Section Regex.
Context {A : Type}.

Fixpoint re_star (p : ascii -> bool) (s : string)
         (k : string -> string -> option A) : option A :=
  match s with
  | EmptyString => k EmptyString s
  | String c s' =>
      if p c then
        match re_star p s' (fun m r => k (String c m) r) with
        | Some a => Some a
        | None => k EmptyString s
        end
      else k EmptyString s
  end.

Definition re_plus (p : ascii -> bool) (s : string)
           (k : string -> string -> option A) : option A :=
  match s with
  | EmptyString => None
  | String c s' =>
      if p c then re_star p s' (fun m r => k (String c m) r) else None
  end.

Fixpoint re_lit (l s : string) (k : string -> option A) : option A :=
  match l with
  | EmptyString => k s
  | String a l' =>
      match s with
      | EmptyString => None
      | String c s' => if Ascii.eqb a c then re_lit l' s' k else None
      end
  end.

(** An unanchored expression is tried at every start position, leftmost
    first. *)
Fixpoint re_search (at_pos : string -> option A) (s : string) : option A :=
  match at_pos s with
  | Some a => Some a
  | None =>
      match s with
      | EmptyString => None
      | String _ s' => re_search at_pos s'
      end
  end.
End Regex.

(** [s.includes(t)] *)
Fixpoint includes (s t : string) : bool :=
  if String.prefix t s then true
  else match s with
       | EmptyString => false
       | String _ s' => includes s' t
       end.

(** [s.toLowerCase()] on Latin-1: A-Z, and the letters C0-DE but D7. *)
Definition lower (c : ascii) : ascii :=
  let n := code c in
  if ((65 <=? n) && (n <=? 90))
     || ((192 <=? n) && (n <=? 222) && negb (n =? 215))
  then ascii_of_N (Z.to_N (n + 32)) else c.

Fixpoint toLowerCase (s : string) : string :=
  match s with
  | EmptyString => EmptyString
  | String c s' => String (lower c) (toLowerCase s')
  end.

(** [s.toUpperCase()] on ASCII strings (a-z); the letters above 127 have
    upper cases outside Latin-1 and are left alone here. *)
Definition upper (c : ascii) : ascii :=
  let n := code c in
  if (97 <=? n) && (n <=? 122) then ascii_of_N (Z.to_N (n - 32)) else c.

Fixpoint toUpperCase (s : string) : string :=
  match s with
  | EmptyString => EmptyString
  | String c s' => String (upper c) (toUpperCase s')
  end.

(** [s.trim()] *)
Fixpoint trimEnd (s : string) : string :=
  match s with
  | EmptyString => EmptyString
  | String c s' =>
      match trimEnd s' with
      | EmptyString => if isWhiteSpace c then EmptyString else String c EmptyString
      | t => String c t
      end
  end.

Definition trim (s : string) : string := trimEnd (trimStart s).

End JS.
Import JS.

(** ** The CAA decoder *)

Definition dquote : string := String (ascii_of_nat 34) EmptyString.

(** [/\\#\s+\d+\s+([\da-fA-F\s]+)/] at one position; the result is group 1. *)
Definition generic_record_at (s : string) : option string :=
  re_lit "\#" s (fun r0 =>
  re_plus isWhiteSpace r0 (fun _ r1 =>
  re_plus isDigit r1 (fun _ r2 =>
  re_plus isWhiteSpace r2 (fun _ r3 =>
  re_plus isHexOrSpace r3 (fun g _ => Some g))))).

(** [hexData.match(/\\#\s+\d+\s+([\da-fA-F\s]+)/)], reduced to [match[1]]. *)
Definition match_generic_record (hexData : string) : option string :=
  re_search generic_record_at hexData.

(** [hex.match(/.{2}/g).map(byte => String.fromCharCode(parseInt(byte, 16))).join('')];
    [.map] on [null] throws a TypeError. *)
Definition decode_pairs (hex : string) : completion string :=
  match match_dot2_g hex with
  | None => Throw (TypeError "Cannot read properties of null (reading 'map')")
  | Some pairs => Normal (join (map (fun byte => fromCharCode (parseInt16 byte)) pairs))
  end.

(** The [try] block of [parseCAA]. *)
Definition parseCAA_body (hexBytes : string) : completion string :=
  let flags := parseInt16 (substr hexBytes (Int 0) (Some (Int 2))) in
  let tagLength := parseInt16 (substr hexBytes (Int 2) (Some (Int 2))) in
  let tagHex := substr hexBytes (Int 4) (Some (mul tagLength (Int 2))) in
  cbind (decode_pairs tagHex) (fun tag =>
  let valueHex := substr hexBytes (add (Int 4) (mul tagLength (Int 2))) None in
  cbind (decode_pairs valueHex) (fun value =>
  Normal (toString flags ++ " " ++ tag ++ " " ++ dquote ++ value ++ dquote))).

(** [parseCAA]; the [console.error] of its [catch] is not recorded, the
    function is taken as what it returns or throws. *)
Definition parseCAA (hexData : string) : completion string :=
  match match_generic_record hexData with
  | None => Normal hexData
  | Some group1 =>
      let hexBytes := remove_spaces group1 in
      try_catch (parseCAA_body hexBytes) (fun err => Normal hexData)
  end.

(** ** Configuration *)

Module Probe.
Record t := { type : string; name : string; label : string }.
End Probe.

Module RECORD_TYPES.
Definition usual : list string :=
  ["SOA"; "A"; "AAAA"; "TXT"; "MX"; "NS"; "CAA"].

Definition emailSecurity : list Probe.t :=
  [ {| Probe.type := "TXT"; Probe.name := "_dmarc"; Probe.label := "_dmarc (TXT)" |};
    {| Probe.type := "A"; Probe.name := "mta-sts"; Probe.label := "mta-sts (A)" |};
    {| Probe.type := "AAAA"; Probe.name := "mta-sts"; Probe.label := "mta-sts (AAAA)" |};
    {| Probe.type := "TXT"; Probe.name := "_mta-sts"; Probe.label := "_mta-sts (TXT)" |};
    {| Probe.type := "TXT"; Probe.name := "_smtp._tls"; Probe.label := "_smtp._tls (TXT)" |};
    {| Probe.type := "TXT"; Probe.name := "google._domainkey";
       Probe.label := "google._domainkey (TXT)" |} ].
End RECORD_TYPES.

(** [PROVIDERS[id]].  For an [id] that is not one of the two keys the read
    gives [undefined], or a member inherited from [Object.prototype]
    ([constructor], [toString], ...); [new URL] accepts neither, and both
    are [None] here. *)
Definition PROVIDERS (id : string) : option string :=
  if String.eqb id "google" then Some "https://dns.google/resolve"
  else if String.eqb id "cloudflare" then Some "https://cloudflare-dns.com/dns-query"
  else None.

(** ** Data *)

(** One entry of the [Answer] array of a DNS JSON response, with the
    fields the resolvers send: [data] is a string. *)
Module RR.
Record t := { name : string; type : Z; TTL : Z; data : string }.
End RR.

(** The parsed body of a response: [Answer] may be absent. *)
Record dns_json := { Answer : option (list RR.t) }.

(** A JavaScript object used as a map from string keys: an association
    list in insertion order. *)
Definition object (V : Type) := list (string * V).

Fixpoint obj_get {V} (o : object V) (k : string) : option V :=
  match o with
  | [] => None
  | (k', v) :: o' => if String.eqb k' k then Some v else obj_get o' k
  end.

(** [o[k] = v]: an existing key keeps its place. *)
Fixpoint obj_set {V} (o : object V) (k : string) (v : V) : object V :=
  match o with
  | [] => [(k, v)]
  | (k', v') :: o' =>
      if String.eqb k' k then (k', v) :: o' else (k', v') :: obj_set o' k v
  end.

Definition keys {V} (o : object V) : list string := map fst o.

(** The object assigned to [results]. *)
Module Result.
Record t := {
  domain : string;
  provider : string;
  usual : object (list RR.t);
  emailSecurity : object (list RR.t)
}.
End Result.

(** A [URL] with its search parameters; [fetch] is called on it with the
    header [Accept: application/dns-json]. *)
Record URL := { href : string; searchParams : object string }.

(** What [fetch] resolves with; [json = None] is a body that does not parse,
    on which [response.json()] rejects. *)
Record response := { ok : bool; status : Z; json : option dns_json }.

(** The network: [None] is a rejected [fetch].  A lookup fetches thirteen
    different URLs, each once, so a function of the URL describes what the
    network does during a lookup. *)
Definition network := URL -> option response.

(** ** The component: its variables and the effects it performs *)

Record world := {
  domain : string;
  provider : string;
  loading : bool;
  error : string;
  results : option Result.t;
  requests : list URL;               (* every [fetch] issued, in order *)
  console : list string;             (* [console.error] *)
  history : list (string * string)   (* [pushState] states: domain, provider *)
}.

Definition set_loading (b : bool) (w : world) : world :=
  {| domain := domain w; provider := provider w; loading := b; error := error w;
     results := results w; requests := requests w; console := console w;
     history := history w |}.

Definition set_error (e : string) (w : world) : world :=
  {| domain := domain w; provider := provider w; loading := loading w; error := e;
     results := results w; requests := requests w; console := console w;
     history := history w |}.

Definition set_results (r : option Result.t) (w : world) : world :=
  {| domain := domain w; provider := provider w; loading := loading w;
     error := error w; results := r; requests := requests w;
     console := console w; history := history w |}.

Definition set_domain (d : string) (w : world) : world :=
  {| domain := d; provider := provider w; loading := loading w;
     error := error w; results := results w; requests := requests w;
     console := console w; history := history w |}.

Definition log_request (u : URL) (w : world) : world :=
  {| domain := domain w; provider := provider w; loading := loading w;
     error := error w; results := results w; requests := requests w ++ [u];
     console := console w; history := history w |}.

Definition log_console (m : string) (w : world) : world :=
  {| domain := domain w; provider := provider w; loading := loading w;
     error := error w; results := results w; requests := requests w;
     console := console w ++ [m]; history := history w |}.

Definition log_history (h : string * string) (w : world) : world :=
  {| domain := domain w; provider := provider w; loading := loading w;
     error := error w; results := results w; requests := requests w;
     console := console w; history := history w ++ [h] |}.

(** Computations that read and write the world and may throw. *)
Definition M (A : Type) : Type := world -> completion A * world.

Definition ret {A} (a : A) : M A := fun w => (Normal a, w).

Definition bind {A B} (m : M A) (k : A -> M B) : M B :=
  fun w => match m w with
           | (Normal a, w') => k a w'
           | (Throw e, w') => (Throw e, w')
           end.

Definition throw {A} (e : exn) : M A := fun w => (Throw e, w).

Definition lift {A} (c : completion A) : M A := fun w => (c, w).

Definition gets {A} (f : world -> A) : M A := fun w => (Normal (f w), w).

Definition modify (f : world -> world) : M unit := fun w => (Normal tt, f w).

(** [try { body } catch (err) { handler err }]: what [body] did before it
    threw stays done. *)
Definition try_catchM {A} (body : M A) (handler : exn -> M A) : M A :=
  fun w => match body w with
           | (Normal a, w') => (Normal a, w')
           | (Throw e, w') => handler e w'
           end.

(** [try { body } finally { fin }] *)
Definition finallyM {A} (body : M A) (fin : M unit) : M A :=
  fun w => match body w with
           | (c, w') => match fin w' with
                        | (Normal _, w'') => (c, w'')
                        | (Throw e, w'') => (Throw e, w'')
                        end
           end.

Declare Scope js_scope.
Delimit Scope js_scope with js.
Notation "x <- c ;; k" := (bind c (fun x => k))
  (at level 61, c at next level, right associativity) : js_scope.
Notation "c ;;; k" := (bind c (fun _ => k))
  (at level 61, right associativity) : js_scope.
Local Open Scope js_scope.

(** ** queryDNS *)

(** [new URL(providerUrl)]: a TypeError unless the argument is a URL. *)
Definition new_URL (providerUrl : option string) : completion URL :=
  match providerUrl with
  | Some u => Normal {| href := u; searchParams := [] |}
  | None => Throw (TypeError "Invalid URL")
  end.

Definition searchParams_set (u : URL) (k v : string) : URL :=
  {| href := href u; searchParams := obj_set (searchParams u) k v |}.

Section Lookup.
Variable net : network.

Definition fetch (u : URL) : M response :=
  fun w => match net u with
           | Some r => (Normal r, log_request u w)
           | None => (Throw (TypeError "Failed to fetch"), log_request u w)
           end.

Definition response_json (r : response) : M dns_json :=
  match json r with
  | Some j => ret j
  | None => throw (Error "Unexpected token in JSON")
  end.

Definition queryDNS (recordDomain recordType : string)
           (providerUrl : option string) : M dns_json :=
  url <- lift (new_URL providerUrl) ;;
  let url := searchParams_set url "name" recordDomain in
  let url := searchParams_set url "type" recordType in
  response <- fetch url ;;
  if negb (ok response)
  then throw (Error ("HTTP error! status: " ++ toString (Int (status response))))
  else response_json response.

(** ** handleLookup *)

(** [s.replace(/^https?:\/\//, '')] *)
Definition match_scheme (s : string) : option string :=
  re_lit "http" s (fun r1 =>
    match re_lit "s" r1 (fun r2 => re_lit "://" r2 Some) with
    | Some r => Some r
    | None => re_lit "://" r1 Some
    end).

Definition strip_scheme (s : string) : string :=
  match match_scheme s with
  | Some rest => rest
  | None => s
  end.

(** [s.replace(/\/$/, '')] *)
Fixpoint strip_trailing_slash (s : string) : string :=
  match s with
  | EmptyString => EmptyString
  | String c s' =>
      match s' with
      | EmptyString => if Ascii.eqb c "/" then EmptyString else s
      | String _ _ => String c (strip_trailing_slash s')
      end
  end.

Definition clean (domain : string) : string :=
  strip_trailing_slash (strip_scheme (toLowerCase (trim domain))).

(** [result.Answer && result.Answer.length > 0] *)
Definition has_answer (result : dns_json) : option (list RR.t) :=
  match Answer result with
  | Some (r :: l) => Some (r :: l)
  | _ => None
  end.

(** [record => ({ ...record, data: parseCAA(record.data) })] *)
Definition decode_record (record : RR.t) : completion RR.t :=
  cbind (parseCAA (RR.data record)) (fun d =>
  Normal {| RR.name := RR.name record; RR.type := RR.type record;
            RR.TTL := RR.TTL record; RR.data := d |}).

(** [arr.map(f)] for an [f] that may throw. *)
Fixpoint array_map {A B} (f : A -> completion B) (l : list A)
  : completion (list B) :=
  match l with
  | [] => Normal []
  | a :: l' => cbind (f a) (fun b => cbind (array_map f l') (fun bs => Normal (b :: bs)))
  end.

(** The body of [for (const type of RECORD_TYPES.usual)]. *)
Definition usual_step (cleanDomain : string) (providerUrl : option string)
           (usualResults : object (list RR.t)) (type : string)
  : M (object (list RR.t)) :=
  try_catchM
    (result <- queryDNS cleanDomain type providerUrl ;;
     match has_answer result with
     | Some answer =>
         p <- gets provider ;;
         answer' <- (if String.eqb type "CAA" && String.eqb p "cloudflare"
                     then lift (array_map decode_record answer)
                     else ret answer) ;;
         ret (obj_set usualResults type answer')
     | None => ret usualResults
     end)
    (fun err =>
       modify (log_console ("Error querying " ++ type ++ ":")) ;;;
       ret usualResults).

Fixpoint usual_loop (cleanDomain : string) (providerUrl : option string)
         (types : list string) (usualResults : object (list RR.t))
  : M (object (list RR.t)) :=
  match types with
  | [] => ret usualResults
  | type :: rest =>
      usualResults' <- usual_step cleanDomain providerUrl usualResults type ;;
      usual_loop cleanDomain providerUrl rest usualResults'
  end.

(** [record => record.data && record.data.toLowerCase().includes('v=spf1')] *)
Definition is_spf (record : RR.t) : bool :=
  negb (String.eqb (RR.data record) "")
  && includes (toLowerCase (RR.data record)) "v=spf1".

(** The block [if (usualResults.TXT) { ... }]. *)
Definition extract_spf (usualResults emailSecurityResults : object (list RR.t))
  : object (list RR.t) :=
  match obj_get usualResults "TXT" with
  | Some txt =>
      let spfRecords := filter is_spf txt in
      if (0 <? Z.of_nat (List.length spfRecords))
      then obj_set emailSecurityResults "SPF (TXT)" spfRecords
      else emailSecurityResults
  | None => emailSecurityResults
  end.

(** The body of [for (const record of RECORD_TYPES.emailSecurity)]. *)
Definition email_step (cleanDomain : string) (providerUrl : option string)
           (emailSecurityResults : object (list RR.t)) (record : Probe.t)
  : M (object (list RR.t)) :=
  let queryDomain := Probe.name record ++ "." ++ cleanDomain in
  try_catchM
    (result <- queryDNS queryDomain (Probe.type record) providerUrl ;;
     match has_answer result with
     | Some answer => ret (obj_set emailSecurityResults (Probe.label record) answer)
     | None => ret emailSecurityResults
     end)
    (fun err =>
       modify (log_console ("Error querying " ++ Probe.label record ++ ":")) ;;;
       ret emailSecurityResults).

Fixpoint email_loop (cleanDomain : string) (providerUrl : option string)
         (probes : list Probe.t) (emailSecurityResults : object (list RR.t))
  : M (object (list RR.t)) :=
  match probes with
  | [] => ret emailSecurityResults
  | record :: rest =>
      emailSecurityResults' <-
        email_step cleanDomain providerUrl emailSecurityResults record ;;
      email_loop cleanDomain providerUrl rest emailSecurityResults'
  end.

(** The outer [try] block.  Of [pushState] the state object is recorded,
    not the text of the URL. *)
Definition lookup_body (cleanDomain : string) : M unit :=
  p <- gets provider ;;
  let providerUrl := PROVIDERS p in
  usualResults <- usual_loop cleanDomain providerUrl RECORD_TYPES.usual [] ;;
  let emailSecurityResults := extract_spf usualResults [] in
  emailSecurityResults <-
    email_loop cleanDomain providerUrl RECORD_TYPES.emailSecurity
               emailSecurityResults ;;
  p <- gets provider ;;
  modify (set_results (Some
    {| Result.domain := cleanDomain;
       Result.provider := if String.eqb p "google" then "dns.google" else "1.1.1.1";
       Result.usual := usualResults;
       Result.emailSecurity := emailSecurityResults |})) ;;;
  modify (log_history (cleanDomain, p)).

Definition handleLookup : M unit :=
  d <- gets domain ;;
  if String.eqb (trim d) ""
  then modify (set_error "Please enter a domain name")
  else
    let cleanDomain := clean d in
    modify (set_loading true) ;;;
    modify (set_error "") ;;;
    modify (set_results None) ;;;
    finallyM
      (try_catchM (lookup_body cleanDomain)
         (fun err => modify (set_error ("Error: " ++ message err))))
      (modify (set_loading false)).

End Lookup.

(** ** Notions the statements use *)

Fixpoint string_forallb (p : ascii -> bool) (s : string) : bool :=
  match s with
  | EmptyString => true
  | String c s' => p c && string_forallb p s'
  end.

(** [s] is empty or starts with a character outside [p]. *)
Definition starts_not (p : ascii -> bool) (s : string) : Prop :=
  match s with
  | EmptyString => True
  | String c _ => p c = false
  end.

(** The text contains, somewhere, what the expression of [parseCAA]
    describes: backslash and hash, white space, decimal digits, white space,
    and a non-empty run of hexadecimal digits and white space. *)
Definition has_generic_record (s : string) : Prop :=
  exists pre w1 d w2 g post,
    s = pre ++ "\#" ++ w1 ++ d ++ w2 ++ g ++ post
    /\ (w1 <> "" /\ string_forallb isWhiteSpace w1 = true)
    /\ (d <> "" /\ string_forallb isDigit d = true)
    /\ (w2 <> "" /\ string_forallb isWhiteSpace w2 = true)
    /\ (g <> "" /\ string_forallb isHexOrSpace g = true).

(** The byte stream a string of hexadecimal digits stands for, two digits a
    byte; [None] for an odd length or another character. *)
Fixpoint bytes_of_hex (h : string) : option (list Z) :=
  match h with
  | EmptyString => Some []
  | String a h' =>
      match h' with
      | EmptyString => None
      | String b rest =>
          match hexval a, hexval b, bytes_of_hex rest with
          | Some x, Some y, Some bs => Some (16 * x + y :: bs)
          | _, _, _ => None
          end
      end
  end.

(** Each byte as the character of that code point. *)
Definition decode_ascii (bs : list Z) : string :=
  string_of_list_ascii (map (fun b => ascii_of_N (Z.to_N b)) bs).

(** The display form [<flags> <tag> "<value>"]. *)
Definition display (flags : Z) (tag value : string) : string :=
  toString (Int flags) ++ " " ++ tag ++ " " ++ dquote ++ value ++ dquote.

(** The decoding of a byte stream [B[0..n)] in the words of the
    specification: flags [B[0]], tag length [B[1]], the tag
    [B[2 .. 2+tagLength)] and the value [B[2+tagLength .. n)]. *)
Definition decodeCAA_spec (B : list Z) : option string :=
  match B with
  | flags :: tagLength :: rest =>
      Some (display flags
              (decode_ascii (firstn (Z.to_nat tagLength) rest))
              (decode_ascii (skipn (Z.to_nat tagLength) rest)))
  | _ => None
  end.

(** The bytes end before the two header bytes and the [tagLength] tag bytes
    are complete: the tag length is missing, or the tag would run past the
    last hexadecimal digit. *)
Definition tag_overruns (hexBytes : string) : bool :=
  match parseInt16 (substr hexBytes (Int 2) (Some (Int 2))) with
  | NaN => true
  | Int l => Z.of_nat (String.length hexBytes) <? 4 + l * 2
  end.

(** The URL [queryDNS] fetches for a name and a type. *)
Definition query_url (endpoint recordDomain recordType : string) : URL :=
  {| href := endpoint;
     searchParams := [("name", recordDomain); ("type", recordType)] |}.

(** A query fails: the fetch is rejected (network error), the status is not
    ok, or the body is not JSON. *)
Definition query_fails (net : network) (u : URL) : bool :=
  match net u with
  | None => true
  | Some r => negb (ok r) || match json r with None => true | Some _ => false end
  end.

(** [queryDNS] throws: no URL can be built, or the query fails. *)
Definition query_throws (net : network) (providerUrl : option string)
           (recordDomain recordType : string) : bool :=
  match providerUrl with
  | None => true
  | Some endpoint => query_fails net (query_url endpoint recordDomain recordType)
  end.

(** The records obtained by a query: the [Answer] array of an ok response
    with a JSON body, and none in every other case. *)
Definition answer_of (net : network) (providerUrl : option string)
           (recordDomain recordType : string) : list RR.t :=
  match providerUrl with
  | None => []
  | Some endpoint =>
      match net (query_url endpoint recordDomain recordType) with
      | Some r =>
          if ok r then
            match json r with
            | Some j => match Answer j with Some l => l | None => [] end
            | None => []
            end
          else []
      | None => []
      end
  end.

(** The fetch a query issues, if it gets that far. *)
Definition requests_of (providerUrl : option string)
           (recordDomain recordType : string) : list URL :=
  match providerUrl with
  | None => []
  | Some endpoint => [query_url endpoint recordDomain recordType]
  end.

(** The diagnostic a query leaves on the console. *)
Definition diagnostics (net : network) (providerUrl : option string)
           (recordDomain recordType label : string) : list string :=
  if query_throws net providerUrl recordDomain recordType
  then ["Error querying " ++ label ++ ":"] else [].

(** What [parseCAA] returns. *)
Definition decoded (hexData : string) : string :=
  match parseCAA hexData with
  | Normal r => r
  | Throw _ => hexData
  end.

(** What is stored under a type for an answer: CAA data of cloudflare goes
    through [parseCAA]. *)
Definition stored (provider type : string) (answer : list RR.t) : list RR.t :=
  if String.eqb type "CAA" && String.eqb provider "cloudflare"
  then map (fun record =>
              {| RR.name := RR.name record; RR.type := RR.type record;
                 RR.TTL := RR.TTL record; RR.data := decoded (RR.data record) |})
           answer
  else answer.

(** An entry is only made for a non-empty array. *)
Definition add_entry {V} (acc : object (list V)) (k : string) (v : list V)
  : object (list V) :=
  match v with
  | [] => acc
  | _ :: _ => obj_set acc k v
  end.

(** The two loops, as folds over what the queries obtained. *)
Definition usual_results (net : network) (provider cleanDomain : string)
           (types : list string) (acc : object (list RR.t)) : object (list RR.t) :=
  fold_left (fun acc type =>
               add_entry acc type
                 (stored provider type
                    (answer_of net (PROVIDERS provider) cleanDomain type)))
            types acc.

Definition probe_domain (cleanDomain : string) (record : Probe.t) : string :=
  Probe.name record ++ "." ++ cleanDomain.

Definition email_results (net : network) (provider cleanDomain : string)
           (probes : list Probe.t) (acc : object (list RR.t)) : object (list RR.t) :=
  fold_left (fun acc record =>
               add_entry acc (Probe.label record)
                 (answer_of net (PROVIDERS provider)
                            (probe_domain cleanDomain record) (Probe.type record)))
            probes acc.

Definition lookup_result (net : network) (provider cleanDomain : string) : Result.t :=
  let usualResults :=
    usual_results net provider cleanDomain RECORD_TYPES.usual [] in
  {| Result.domain := cleanDomain;
     Result.provider := if String.eqb provider "google" then "dns.google" else "1.1.1.1";
     Result.usual := usualResults;
     Result.emailSecurity :=
       email_results net provider cleanDomain RECORD_TYPES.emailSecurity
                     (extract_spf usualResults []) |}.

(** Every fetch of a lookup, in order: the seven types, then the six probes. *)
Definition lookup_requests (provider cleanDomain : string) : list URL :=
  flat_map (requests_of (PROVIDERS provider) cleanDomain) RECORD_TYPES.usual
  ++ flat_map (fun record => requests_of (PROVIDERS provider)
                               (probe_domain cleanDomain record) (Probe.type record))
              RECORD_TYPES.emailSecurity.

Definition lookup_diagnostics (net : network) (provider cleanDomain : string)
  : list string :=
  flat_map (fun type => diagnostics net (PROVIDERS provider) cleanDomain type type)
           RECORD_TYPES.usual
  ++ flat_map (fun record => diagnostics net (PROVIDERS provider)
                               (probe_domain cleanDomain record) (Probe.type record)
                               (Probe.label record))
              RECORD_TYPES.emailSecurity.

(** The world after the requests [reqs] and the diagnostics [msgs]. *)
Definition advance (reqs : list URL) (msgs : list string) (w : world) : world :=
  {| domain := domain w; provider := provider w; loading := loading w;
     error := error w; results := results w; requests := requests w ++ reqs;
     console := console w ++ msgs; history := history w |}.

(** The world a lookup that got past the check of the domain ends in. *)
Definition after_lookup (net : network) (w : world) : world :=
  let cleanDomain := clean (domain w) in
  {| domain := domain w; provider := provider w; loading := false; error := "";
     results := Some (lookup_result net (provider w) cleanDomain);
     requests := requests w ++ lookup_requests (provider w) cleanDomain;
     console := console w ++ lookup_diagnostics net (provider w) cleanDomain;
     history := history w ++ [(cleanDomain, provider w)] |}.

(** The data mentions [v=spf1] in some mix of cases. *)
Definition mentions_spf1 (data : string) : Prop :=
  exists pre mid post,
    data = pre ++ mid ++ post /\ toLowerCase mid = "v=spf1".

(** All code units below 128. *)
Definition is_ascii (s : string) : bool :=
  string_forallb (fun c => code c <? 128) s.

(** The last character exists and is neither white space nor a slash. *)
Fixpoint ends_plain (s : string) : bool :=
  match s with
  | EmptyString => false
  | String c s' =>
      match s' with
      | EmptyString => negb (isWhiteSpace c) && negb (Ascii.eqb c "/")
      | String _ _ => ends_plain s'
      end
  end.

(** ** Sample inputs *)

(** The component as it starts: [domain = ''], [provider = 'google'],
    no results. *)
Definition initial : world :=
  {| domain := ""; provider := "google"; loading := false; error := "";
     results := None; requests := []; console := []; history := [] |}.

(** A network on which every fetch is rejected. *)
Definition offline : network := fun _ => None.

Definition sample_record (data : string) : RR.t :=
  {| RR.name := "a.com."; RR.type := 1; RR.TTL := 300; RR.data := data |}.

(** A network that answers with [records] for one name and one type, and
    with status 404 for every other query. *)
Definition answering (recordDomain recordType : string) (records : list RR.t)
  : network :=
  fun u =>
    if match obj_get (searchParams u) "name", obj_get (searchParams u) "type" with
       | Some n, Some t => String.eqb n recordDomain && String.eqb t recordType
       | _, _ => false
       end
    then Some {| ok := true; status := 200;
                 json := Some {| Answer := Some records |} |}
    else Some {| ok := false; status := 404; json := None |}.

(** The wire bytes [00 05 69 73 73 75 65 74 65 73 74 63 61 2e 63 6f 6d]. *)
Definition wire_example : string :=
  "\# 17 00 05 69 73 73 75 65 74 65 73 74 63 61 2e 63 6f 6d".

(** The input [\# 19 0005697373756574657374"ca.com"]. *)
Definition quoted_example : string :=
  "\# 19 0005697373756574657374" ++ dquote ++ "ca.com" ++ dquote.

(** Text that is already in display form. *)
Definition display_example : string :=
  "0 issue " ++ dquote ++ "ca.com" ++ dquote.

(** The group 1 of an input that holds a generic record runs past its tag. *)
Definition input_overruns (hexData : string) : bool :=
  match match_generic_record hexData with
  | Some group1 => tag_overruns (remove_spaces group1)
  | None => false
  end.

(** ** The rest of the component *)

Definition set_provider (p : string) (w : world) : world :=
  {| domain := domain w; provider := p; loading := loading w;
     error := error w; results := results w; requests := requests w;
     console := console w; history := history w |}.

(** The [state] of a history entry as [handlePopState] reads it: an object
    whose [domain] and [provider] may be missing. *)
Module HistoryState.
Record t := { domain : option string; provider : option string }.
End HistoryState.

(** A [popstate] event: [event.state] is [null] for an entry that was not
    pushed with a state. *)
Record PopStateEvent := { state : option HistoryState.t }.

(** A string that may be missing, used as a condition: [undefined], [null]
    and the empty string are falsy. *)
Definition truthy (s : option string) : bool :=
  match s with
  | Some s => negb (String.eqb s "")
  | None => false
  end.

(** [s || fallback] *)
Definition or_else (s : option string) (fallback : string) : string :=
  match s with
  | Some s => if String.eqb s "" then fallback else s
  | None => fallback
  end.

(** [handlePopState].  The call of [handleLookup] is not awaited; here it
    runs to its end before anything else happens. *)
Definition handlePopState (net : network) (event : PopStateEvent) : M unit :=
  match state event with
  | Some st =>
      if truthy (HistoryState.domain st) then
        modify (set_domain (or_else (HistoryState.domain st) "")) ;;;
        modify (set_provider (or_else (HistoryState.provider st) "google")) ;;;
        handleLookup net
      else
        modify (set_results None) ;;;
        modify (set_domain "") ;;;
        modify (set_provider "google")
  | None =>
      modify (set_results None) ;;;
      modify (set_domain "") ;;;
      modify (set_provider "google")
  end.

(** The names every object inherits from [Object.prototype]; each of them
    reads as a function or an object, which is truthy. *)
Definition Object_prototype_members : list string :=
  ["constructor"; "hasOwnProperty"; "isPrototypeOf"; "propertyIsEnumerable";
   "toLocaleString"; "toString"; "valueOf"; "__proto__";
   "__defineGetter__"; "__defineSetter__"; "__lookupGetter__";
   "__lookupSetter__"].

(** [PROVIDERS[id]] used as a condition. *)
Definition PROVIDERS_truthy (id : string) : bool :=
  match PROVIDERS id with
  | Some _ => true
  | None => existsb (String.eqb id) Object_prototype_members
  end.

(** The callback of [onMount], given what [params.get('domain')] and
    [params.get('provider')] return ([None] is [null]).  The registration of
    the [popstate] listener is not part of the model. *)
Definition onMount (net : network) (urlDomain urlProvider : option string)
  : M unit :=
  if truthy urlDomain then
    modify (set_domain (or_else urlDomain "")) ;;;
    (if truthy urlProvider && PROVIDERS_truthy (or_else urlProvider "")
     then modify (set_provider (or_else urlProvider ""))
     else modify (set_provider "google")) ;;;
    handleLookup net
  else ret tt.

(** [handleKeyPress], given [event.key]. *)
Definition handleKeyPress (net : network) (key : string) : M unit :=
  if String.eqb key "Enter" then handleLookup net else ret tt.

(** [handleClear].  The state object [{}] it pushes has neither field; in
    the log of pushed states, which holds pairs, it shows as two empty
    strings ([handlePopState] treats a missing and an empty domain alike). *)
Definition handleClear : M unit :=
  modify (set_domain "") ;;;
  modify (set_results None) ;;;
  modify (set_error "") ;;;
  modify (log_history ("", "")).

(** What [getAvailableRecords] returns. *)
Module Available.
Record t := { usual : list string; emailSecurity : list string }.
End Available.

Definition getAvailableRecords (w : world) : Available.t :=
  match results w with
  | None => {| Available.usual := []; Available.emailSecurity := [] |}
  | Some r => {| Available.usual := keys (Result.usual r);
                 Available.emailSecurity := keys (Result.emailSecurity r) |}
  end.

(** ** Notions of the further statements *)

(** The longest prefix of even length. *)
Fixpoint even_prefix (h : string) : string :=
  match h with
  | EmptyString => EmptyString
  | String a h' =>
      match h' with
      | EmptyString => EmptyString
      | String b rest => String a (String b (even_prefix rest))
      end
  end.

(** The exception [.map] throws on [null]. *)
Definition null_map : exn :=
  TypeError "Cannot read properties of null (reading 'map')".

(** What becomes of an input whose group 1 is [group1]: the display form of
    the bytes its hexadecimal digits stand for (an odd last digit left out)
    when there are two header bytes, between 1 and [n - 3] tag bytes and so
    at least one value byte; the input itself otherwise. *)
Definition decoded_group (hexData group1 : string) : string :=
  match bytes_of_hex (even_prefix (remove_spaces group1)) with
  | Some (flags :: tagLength :: rest) =>
      if (0 <? tagLength) && (tagLength <? Z.of_nat (List.length rest))
      then display flags
             (decode_ascii (firstn (Z.to_nat tagLength) rest))
             (decode_ascii (skipn (Z.to_nat tagLength) rest))
      else hexData
  | _ => hexData
  end.

(** A query obtained at least one record. *)
Definition has_records {A} (l : list A) : bool :=
  match l with
  | [] => false
  | _ :: _ => true
  end.

(** Letters, digits, dots and hyphens. *)
Definition isHostChar (c : ascii) : bool :=
  let n := code c in
  ((48 <=? n) && (n <=? 57)) || ((65 <=? n) && (n <=? 90))
  || ((97 <=? n) && (n <=? 122)) || (n =? 45) || (n =? 46).

(** A host name: not empty, made of such characters. *)
Definition is_hostname (s : string) : bool :=
  negb (String.eqb s "") && string_forallb isHostChar s.

(** The world with another domain and provider typed in. *)
Definition typed (d p : string) (w : world) : world :=
  set_provider p (set_domain d w).

(** ** Characters *)

Ltac ascii_cases c :=
  destruct c as [[|] [|] [|] [|] [|] [|] [|] [|]].

Lemma digit_not_space c : isDigit c = true -> isWhiteSpace c = false.
Proof. ascii_cases c; vm_compute; congruence. Qed.

Lemma space_not_digit c : isWhiteSpace c = true -> isDigit c = false.
Proof. ascii_cases c; vm_compute; congruence. Qed.

Lemma hexval_range c x : hexval c = Some x -> 0 <= x < 16.
Proof.
  intros H; ascii_cases c; vm_compute in H; try discriminate;
    injection H as <-; lia.
Qed.

Lemma hex_not_space c x : hexval c = Some x -> isWhiteSpace c = false.
Proof. intros H; ascii_cases c; vm_compute in H; try discriminate; reflexivity. Qed.

Lemma hex_not_terminator c x : hexval c = Some x -> isLineTerminator c = false.
Proof. intros H; ascii_cases c; vm_compute in H; try discriminate; reflexivity. Qed.

Lemma hex_not_sign c x :
  hexval c = Some x -> Ascii.eqb c "-" = false /\ Ascii.eqb c "+" = false.
Proof.
  intros H; ascii_cases c; vm_compute in H; try discriminate; split; reflexivity.
Qed.

Lemma hex_not_x c x :
  hexval c = Some x -> Ascii.eqb c "x" || Ascii.eqb c "X" = false.
Proof. intros H; ascii_cases c; vm_compute in H; try discriminate; reflexivity. Qed.

Lemma hex_in_class c x : hexval c = Some x -> isHexOrSpace c = true.
Proof. intros H; ascii_cases c; vm_compute in H; try discriminate; reflexivity. Qed.

Lemma space_in_class c : isWhiteSpace c = true -> isHexOrSpace c = true.
Proof. ascii_cases c; vm_compute; congruence. Qed.

(** ** Strings *)

Lemma append_nil_r (s : string) : s ++ "" = s.
Proof. induction s; simpl; congruence. Qed.

Lemma append_assoc (a b c : string) : (a ++ b) ++ c = a ++ b ++ c.
Proof. induction a; simpl; congruence. Qed.

Lemma length_append (a b : string) :
  String.length (a ++ b) = (String.length a + String.length b)%nat.
Proof. induction a; simpl; congruence. Qed.

Lemma string_forallb_app p a b :
  string_forallb p (a ++ b) = string_forallb p a && string_forallb p b.
Proof. induction a; simpl; [reflexivity|]. rewrite IHa. apply andb_assoc. Qed.

Lemma starts_not_app (p q : ascii -> bool) m r :
  m <> "" -> string_forallb q m = true ->
  (forall c, q c = true -> p c = false) -> starts_not p (m ++ r).
Proof.
  destruct m as [|c m]; [congruence|]. simpl. intros _ H Hpq.
  apply andb_true_iff in H. apply Hpq, H.
Qed.

(** Induction two characters at a time. *)
Lemma string_pair_ind (P : string -> Prop) :
  P "" -> (forall a, P (String a "")) ->
  (forall a b s, P s -> P (String a (String b s))) ->
  forall s, P s.
Proof.
  intros H0 H1 H2 s.
  assert (H : P s /\ forall a, P (String a s)).
  { induction s as [|c s [IHa IHb]]; split; auto. }
  apply H.
Qed.

(** ** The matcher *)

Section RegexFacts.
Context {A : Type}.
Implicit Types (k : string -> string -> option A) (p : ascii -> bool).

Lemma re_star_sound p s : forall k a,
  re_star p s k = Some a ->
  exists m r, s = m ++ r /\ string_forallb p m = true /\ k m r = Some a.
Proof.
  induction s as [|c s IH]; intros k a H; simpl in H.
  - exists "", "". auto.
  - destruct (p c) eqn:Hp.
    + destruct (re_star p s (fun m r => k (String c m) r)) eqn:Hs.
      * injection H as ->. apply IH in Hs.
        destruct Hs as (m & r & -> & Hm & Hk).
        exists (String c m), r. simpl. rewrite Hp. auto.
      * exists "", (String c s). auto.
    + exists "", (String c s). auto.
Qed.

Lemma re_plus_sound p s k a :
  re_plus p s k = Some a ->
  exists m r, s = m ++ r /\ (m <> "" /\ string_forallb p m = true)
              /\ k m r = Some a.
Proof.
  destruct s as [|c s]; simpl; [discriminate|].
  destruct (p c) eqn:Hp; [|discriminate]. intros H.
  apply re_star_sound in H. destruct H as (m & r & -> & Hm & Hk).
  exists (String c m), r. simpl. rewrite Hp. repeat split; auto. discriminate.
Qed.

(** The longest match wins when the continuation accepts it. *)
Lemma re_star_greedy p m : forall r k a,
  string_forallb p m = true -> starts_not p r -> k m r = Some a ->
  re_star p (m ++ r) k = Some a.
Proof.
  induction m as [|c m IH]; simpl; intros r k a Hm Hr Hk.
  - destruct r as [|c r]; simpl; auto. simpl in Hr. now rewrite Hr.
  - apply andb_true_iff in Hm. destruct Hm as [Hc Hm]. rewrite Hc.
    now rewrite (IH r (fun m r => k (String c m) r) a).
Qed.

Lemma re_plus_greedy p m r k a :
  m <> "" -> string_forallb p m = true -> starts_not p r -> k m r = Some a ->
  re_plus p (m ++ r) k = Some a.
Proof.
  destruct m as [|c m]; [congruence|]. simpl. intros _ Hm Hr Hk.
  apply andb_true_iff in Hm. destruct Hm as [Hc Hm]. rewrite Hc.
  now apply re_star_greedy.
Qed.

(** Some match is found whenever one exists. *)
Lemma re_star_complete p m : forall r k a,
  string_forallb p m = true -> k m r = Some a ->
  exists a', re_star p (m ++ r) k = Some a'.
Proof.
  induction m as [|c m IH]; simpl; intros r k a Hm Hk.
  - destruct r as [|c r]; simpl; eauto.
    destruct (p c); eauto.
    destruct (re_star p r (fun m r0 => k (String c m) r0)); eauto.
  - apply andb_true_iff in Hm. destruct Hm as [Hc Hm]. rewrite Hc.
    destruct (IH r (fun m r => k (String c m) r) a Hm Hk) as [a' ->]. eauto.
Qed.

Lemma re_plus_complete p m r k a :
  m <> "" -> string_forallb p m = true -> k m r = Some a ->
  exists a', re_plus p (m ++ r) k = Some a'.
Proof.
  destruct m as [|c m]; [congruence|]. simpl. intros _ Hm Hk.
  apply andb_true_iff in Hm. destruct Hm as [Hc Hm]. rewrite Hc.
  now apply re_star_complete with (a := a).
Qed.

Lemma re_lit_app l : forall r (k : string -> option A),
  re_lit l (l ++ r) k = k r.
Proof.
  induction l as [|c l IH]; simpl; intros; auto.
  now rewrite Ascii.eqb_refl.
Qed.

Lemma re_lit_sound l : forall s (k : string -> option A) a,
  re_lit l s k = Some a -> exists r, s = l ++ r /\ k r = Some a.
Proof.
  induction l as [|c l IH]; simpl; intros s k a H; eauto.
  destruct s as [|c' s]; [discriminate|].
  destruct (Ascii.eqb c c') eqn:E; [|discriminate].
  apply Ascii.eqb_eq in E. subst c'.
  apply IH in H. destruct H as (r & -> & Hk). eauto.
Qed.

Lemma re_search_here (f : string -> option A) s a :
  f s = Some a -> re_search f s = Some a.
Proof. intros H. destruct s; simpl; now rewrite H. Qed.

Lemma re_search_sound (f : string -> option A) s : forall a,
  re_search f s = Some a -> exists pre r, s = pre ++ r /\ f r = Some a.
Proof.
  induction s as [|c s IH]; simpl; intros a H.
  - destruct (f "") eqn:E; [|discriminate]. exists "", "". now injection H as ->.
  - destruct (f (String c s)) eqn:E.
    + exists "", (String c s). now injection H as ->.
    + apply IH in H. destruct H as (pre & r & -> & Hr).
      exists (String c pre), r. auto.
Qed.

Lemma re_search_complete (f : string -> option A) pre : forall r a,
  f r = Some a -> exists a', re_search f (pre ++ r) = Some a'.
Proof.
  induction pre as [|c pre IH]; simpl; intros r a H.
  - exists a. now apply re_search_here.
  - destruct (f (String c (pre ++ r))); eauto.
Qed.
End RegexFacts.

(** ** The expression of [parseCAA] *)

Lemma match_generic_record_sound s g :
  match_generic_record s = Some g -> has_generic_record s.
Proof.
  unfold match_generic_record, generic_record_at. intros H.
  apply re_search_sound in H. destruct H as (pre & r & -> & H).
  apply re_lit_sound in H. destruct H as (r0 & -> & H).
  apply re_plus_sound in H. destruct H as (w1 & r1 & -> & Hw1 & H).
  apply re_plus_sound in H. destruct H as (d & r2 & -> & Hd & H).
  apply re_plus_sound in H. destruct H as (w2 & r3 & -> & Hw2 & H).
  apply re_plus_sound in H. destruct H as (g' & post & -> & Hg & H).
  exists pre, w1, d, w2, g', post. auto.
Qed.

Lemma match_generic_record_complete s :
  has_generic_record s -> exists g, match_generic_record s = Some g.
Proof.
  intros (pre & w1 & d & w2 & g & post & -> & [N1 H1] & [Nd Hd] & [N2 H2] & [Ng Hg]).
  unfold match_generic_record.
  assert (E4 : exists a, re_plus isHexOrSpace (g ++ post)
                           (fun g0 _ => Some g0) = Some a)
    by (eapply re_plus_complete; eauto).
  destruct E4 as [a4 E4].
  assert (E3 : exists a, re_plus isWhiteSpace (w2 ++ g ++ post) (fun _ r3 =>
                 re_plus isHexOrSpace r3 (fun g0 _ => Some g0)) = Some a)
    by (eapply re_plus_complete; eauto).
  destruct E3 as [a3 E3].
  assert (E2 : exists a, re_plus isDigit (d ++ w2 ++ g ++ post) (fun _ r2 =>
                 re_plus isWhiteSpace r2 (fun _ r3 =>
                 re_plus isHexOrSpace r3 (fun g0 _ => Some g0))) = Some a)
    by (eapply re_plus_complete; eauto).
  destruct E2 as [a2 E2].
  assert (E1 : exists a, re_plus isWhiteSpace (w1 ++ d ++ w2 ++ g ++ post) (fun _ r1 =>
                 re_plus isDigit r1 (fun _ r2 =>
                 re_plus isWhiteSpace r2 (fun _ r3 =>
                 re_plus isHexOrSpace r3 (fun g0 _ => Some g0)))) = Some a)
    by (eapply re_plus_complete; eauto).
  destruct E1 as [a1 E1].
  eapply re_search_complete with (a := a1).
  unfold generic_record_at. change ("\#" ++ w1 ++ d ++ w2 ++ g ++ post)
    with ("\#" ++ (w1 ++ d ++ w2 ++ g ++ post)).
  now rewrite re_lit_app.
Qed.

Lemma match_generic_record_none s :
  match_generic_record s = None <-> ~ has_generic_record s.
Proof.
  split.
  - intros H Hs. apply match_generic_record_complete in Hs.
    destruct Hs as [g Hg]. congruence.
  - intros H. destruct (match_generic_record s) eqn:E; auto.
    exfalso. eauto using match_generic_record_sound.
Qed.

(** A record that starts the text, with nothing but hexadecimal digits and
    white space after the length: group 1 is all of that. *)
Lemma match_generic_record_exact w1 d w2 body :
  w1 <> "" -> string_forallb isWhiteSpace w1 = true ->
  d <> "" -> string_forallb isDigit d = true ->
  w2 <> "" -> string_forallb isWhiteSpace w2 = true ->
  body <> "" -> string_forallb isHexOrSpace body = true ->
  starts_not isWhiteSpace body ->
  match_generic_record ("\#" ++ w1 ++ d ++ w2 ++ body) = Some body.
Proof.
  intros N1 H1 Nd Hd N2 H2 Nb Hb Sb.
  unfold match_generic_record. apply re_search_here.
  unfold generic_record_at.
  change ("\#" ++ w1 ++ d ++ w2 ++ body) with ("\#" ++ (w1 ++ d ++ w2 ++ body)).
  rewrite re_lit_app.
  apply re_plus_greedy; auto.
  { eapply starts_not_app; eauto using digit_not_space. }
  apply re_plus_greedy; auto.
  { eapply starts_not_app; eauto using space_not_digit. }
  apply re_plus_greedy; auto.
  rewrite <- (append_nil_r body) at 1.
  apply re_plus_greedy; simpl; auto.
Qed.

(** Leading white space of the bytes goes with the white space before them. *)
Lemma split_leading_space s :
  exists a b, s = a ++ b /\ string_forallb isWhiteSpace a = true
              /\ starts_not isWhiteSpace b /\ remove_spaces s = remove_spaces b.
Proof.
  induction s as [|c s (a & b & -> & Ha & Hb & E)].
  - exists "", "". simpl. auto.
  - destruct (isWhiteSpace c) eqn:Hc.
    + exists (String c a), b. simpl. rewrite Hc. auto.
    + exists "", (String c (a ++ b)). simpl. rewrite Hc. auto.
Qed.

Lemma bytes_of_hex_class : forall h bs,
  bytes_of_hex h = Some bs ->
  string_forallb isHexDigit h = true
  /\ String.length h = (2 * List.length bs)%nat.
Proof.
  intros h. pattern h. apply string_pair_ind; clear h.
  - intros bs H. injection H as <-. auto.
  - intros a bs H. discriminate.
  - intros a b s IH bs H. cbn [bytes_of_hex] in H.
    destruct (hexval a) eqn:Ea; [|discriminate].
    destruct (hexval b) eqn:Eb; [|discriminate].
    destruct (bytes_of_hex s) eqn:Es; [|discriminate].
    injection H as <-. destruct (IH l eq_refl) as [IH1 IH2]. split.
    + cbn [string_forallb]. unfold isHexDigit at 1 2. now rewrite Ea, Eb.
    + cbn [String.length List.length]. lia.
Qed.

Lemma remove_spaces_class s :
  string_forallb isHexDigit (remove_spaces s) = true ->
  string_forallb isHexOrSpace s = true.
Proof.
  induction s as [|c s IH]; simpl; auto.
  destruct (isWhiteSpace c) eqn:Hc.
  - intros H. rewrite (space_in_class _ Hc). auto.
  - simpl. intros H. apply andb_true_iff in H. destruct H as [H1 H2].
    unfold isHexDigit in H1. destruct (hexval c) eqn:E; [|discriminate].
    rewrite (hex_in_class _ _ E). auto.
Qed.

(** ** Pieces of the decoder *)

Lemma substring_0_0 : forall n s, substring n 0 s = "".
Proof. induction n; destruct s; simpl; auto. Qed.

Lemma substr_nat s (i n : nat) :
  (i + n <= String.length s)%nat ->
  substr s (Int (Z.of_nat i)) (Some (Int (Z.of_nat n))) = substring i n s.
Proof.
  intros H. unfold substr. simpl ToIntegerOrInfinity.
  destruct (Z.ltb_spec (Z.of_nat i) 0); [lia|].
  f_equal; lia.
Qed.

Lemma substr_to_end s (i : nat) :
  (i <= String.length s)%nat ->
  substr s (Int (Z.of_nat i)) None = substring i (String.length s - i) s.
Proof.
  intros H. unfold substr. simpl ToIntegerOrInfinity.
  destruct (Z.ltb_spec (Z.of_nat i) 0); [lia|].
  f_equal; lia.
Qed.

Lemma substr_no_length s start l :
  ToIntegerOrInfinity l <= 0 -> substr s start (Some l) = "".
Proof.
  intros H. unfold substr.
  match goal with |- substring _ ?n _ = _ => replace n with 0%nat by lia end.
  apply substring_0_0.
Qed.

Lemma substr_past_end s z len :
  Z.of_nat (String.length s) <= z -> substr s (Int z) len = "".
Proof.
  intros H. unfold substr. simpl ToIntegerOrInfinity.
  destruct (Z.ltb_spec z 0); [lia|].
  match goal with |- substring _ ?n _ = _ => replace n with 0%nat by lia end.
  apply substring_0_0.
Qed.

Lemma parseInt16_pair a b x y :
  hexval a = Some x -> hexval b = Some y ->
  parseInt16 (String a (String b "")) = Int (16 * x + y).
Proof.
  intros Ha Hb. unfold parseInt16. simpl trimStart.
  rewrite (hex_not_space _ _ Ha). unfold strip_sign.
  destruct (hex_not_sign _ _ Ha) as [-> ->]. unfold strip_0x.
  rewrite (hex_not_x _ _ Hb), andb_false_r. cbn [hexdigits]. rewrite Ha.
  cbn [hexdigits]. rewrite Hb. cbn [hexdigits]. f_equal.
Qed.

(** The character of two hexadecimal digits is the one of their byte; its
    code unit is below 256. *)
Lemma fromCharCode_parseInt16_pair a b x y :
  hexval a = Some x -> hexval b = Some y ->
  0 <= 16 * x + y < 256
  /\ fromCharCode (parseInt16 (String a (String b "")))
     = ascii_of_N (Z.to_N (16 * x + y)).
Proof.
  intros Ha Hb. rewrite (parseInt16_pair _ _ _ _ Ha Hb).
  pose proof (hexval_range _ _ Ha). pose proof (hexval_range _ _ Hb).
  split; [lia|]. unfold fromCharCode. cbn [ToIntegerOrInfinity].
  now rewrite Z.mod_small by lia.
Qed.

Lemma matches_dot2_hex : forall h bs,
  bytes_of_hex h = Some bs ->
  map (fun byte => fromCharCode (parseInt16 byte)) (matches_dot2 h)
  = map (fun b => ascii_of_N (Z.to_N b)) bs.
Proof.
  intros h. pattern h. apply string_pair_ind; clear h.
  - intros bs H. injection H as <-. reflexivity.
  - intros a bs H. discriminate.
  - intros a b s IH bs H. cbn [bytes_of_hex] in H.
    destruct (hexval a) eqn:Ea; [|discriminate].
    destruct (hexval b) eqn:Eb; [|discriminate].
    destruct (bytes_of_hex s) eqn:Es; [|discriminate].
    injection H as <-. simpl matches_dot2.
    rewrite (hex_not_terminator _ _ Ea), (hex_not_terminator _ _ Eb).
    simpl. rewrite (IH l eq_refl).
    now destruct (fromCharCode_parseInt16_pair _ _ _ _ Ea Eb) as [_ ->].
Qed.

Lemma decode_pairs_hex h bs :
  bytes_of_hex h = Some bs -> bs <> [] ->
  decode_pairs h = Normal (decode_ascii bs).
Proof.
  intros H N. pose proof (matches_dot2_hex _ _ H) as E.
  unfold decode_pairs, match_dot2_g, decode_ascii, join.
  destruct (matches_dot2 h) as [|p l].
  - destruct bs; [congruence|discriminate].
  - now rewrite E.
Qed.

Lemma decode_pairs_empty : exists e, decode_pairs "" = Throw e.
Proof. eexists. reflexivity. Qed.

Lemma bytes_of_hex_split : forall (n : nat) h bs,
  bytes_of_hex h = Some bs -> (n <= List.length bs)%nat ->
  bytes_of_hex (substring 0 (2 * n) h) = Some (firstn n bs)
  /\ bytes_of_hex (substring (2 * n) (String.length h - 2 * n) h)
     = Some (skipn n bs).
Proof.
  induction n as [|n IH]; intros h bs H Hn.
  - simpl. rewrite substring_0_0. split; auto.
    rewrite Nat.sub_0_r.
    replace (substring 0 (String.length h) h) with h; auto.
    clear. induction h; simpl; congruence.
  - destruct bs as [|b0 bs]; [simpl in Hn; lia|].
    destruct h as [|a [|b h]]; cbn [bytes_of_hex] in H; try discriminate.
    destruct (hexval a) eqn:Ea; [|discriminate].
    destruct (hexval b) eqn:Eb; [|discriminate].
    destruct (bytes_of_hex h) eqn:Eh; [|discriminate].
    assert (E : b0 = 16 * z + z0 /\ bs = l) by (split; congruence).
    destruct E as [-> ->]. clear H. cbn [List.length] in Hn.
    destruct (IH h l Eh) as [IH1 IH2]; [lia|].
    replace (2 * S n)%nat with (S (S (2 * n))) by lia.
    split.
    + cbn [substring bytes_of_hex firstn]. now rewrite Ea, Eb, IH1.
    + cbn [substring String.length skipn Nat.sub]. exact IH2.
Qed.

(** ** The [try] block of [parseCAA] *)

Lemma substring_skip4 k m a b c d s :
  substring (4 + k) m (String a (String b (String c (String d s))))
  = substring k m s.
Proof. reflexivity. Qed.

Lemma decode_ascii_nonempty bs e : decode_ascii bs = e -> bs <> [] -> e <> "".
Proof. intros <- N. destruct bs; [congruence|]. discriminate. Qed.

(** With at least one tag byte and at least one value byte the block returns
    the display form of the bytes. *)
Lemma parseCAA_body_decodes hexBytes flags tagLength rest :
  bytes_of_hex hexBytes = Some (flags :: tagLength :: rest) ->
  0 < tagLength < Z.of_nat (List.length rest) ->
  parseCAA_body hexBytes
  = Normal (display flags
              (decode_ascii (firstn (Z.to_nat tagLength) rest))
              (decode_ascii (skipn (Z.to_nat tagLength) rest))).
Proof.
  intros Hb Hl.
  destruct hexBytes as [|a [|b [|c [|d h]]]]; cbn [bytes_of_hex] in Hb;
    try discriminate.
  - destruct (hexval a), (hexval b); discriminate.
  - destruct (hexval a), (hexval b); discriminate.
  - destruct (hexval a) as [x|] eqn:Ea; [|discriminate].
    destruct (hexval b) as [y|] eqn:Eb; [|discriminate].
    destruct (hexval c) as [x'|] eqn:Ec; [|discriminate].
    destruct (hexval d) as [y'|] eqn:Ed; [|discriminate].
    destruct (bytes_of_hex h) as [bs|] eqn:Eh; [|discriminate].
    assert (E : flags = 16 * x + y /\ tagLength = 16 * x' + y' /\ rest = bs)
      by (repeat split; congruence).
    destruct E as (Ef & Et & ->). clear Hb.
    destruct (bytes_of_hex_class _ _ Eh) as [_ Hlen].
    set (n := Z.to_nat tagLength).
    assert (Hn : tagLength = Z.of_nat n) by (unfold n; lia).
    destruct (bytes_of_hex_split n h bs Eh) as [Htag Hval]; [lia|].
    unfold parseCAA_body.
    change (Int 0) with (Int (Z.of_nat 0)).
    change (Int 2) with (Int (Z.of_nat 2)).
    change (Int 4) with (Int (Z.of_nat 4)).
    rewrite !substr_nat by (cbn [String.length]; lia).
    cbn [substring]. rewrite !substring_0_0.
    rewrite (parseInt16_pair _ _ _ _ Ea Eb), (parseInt16_pair _ _ _ _ Ec Ed).
    rewrite <- Ef, <- Et. cbn [mul add].
    replace (tagLength * Z.of_nat 2) with (Z.of_nat (2 * n)) by lia.
    replace (Z.of_nat 4 + Z.of_nat (2 * n)) with (Z.of_nat (4 + 2 * n)) by lia.
    rewrite substr_nat by (cbn [String.length]; lia).
    rewrite substr_to_end by (cbn [String.length]; lia).
    rewrite substring_skip4.
    change (substring 4 (2 * n) (String a (String b (String c (String d h)))))
      with (substring 0 (2 * n) h).
    replace (String.length (String a (String b (String c (String d h))))
             - (4 + 2 * n))%nat
      with (String.length h - 2 * n)%nat by (cbn [String.length]; lia).
    rewrite (decode_pairs_hex _ _ Htag).
    2:{ intros E. apply (f_equal (@List.length Z)) in E.
        rewrite length_firstn in E. cbn [List.length] in E. lia. }
    cbn [cbind].
    rewrite (decode_pairs_hex _ _ Hval).
    2:{ intros E. apply (f_equal (@List.length Z)) in E.
        rewrite length_skipn in E. cbn [List.length] in E. lia. }
    reflexivity.
Qed.

(** When the tag overruns the bytes the block throws. *)
Lemma parseCAA_body_overrun hexBytes :
  tag_overruns hexBytes = true -> exists e, parseCAA_body hexBytes = Throw e.
Proof.
  unfold tag_overruns, parseCAA_body. intros H.
  destruct (parseInt16 (substr hexBytes (Int 2) (Some (Int 2)))) as [|l].
  - cbn [mul]. rewrite substr_no_length by (cbn [ToIntegerOrInfinity]; lia).
    destruct decode_pairs_empty as [e ->]. eexists. reflexivity.
  - apply Z.ltb_lt in H. cbn [mul add].
    destruct (decode_pairs (substr hexBytes (Int 4) (Some (Int (l * 2)))))
      as [tag|e]; cbn [cbind]; [|eauto].
    rewrite substr_past_end by lia.
    destruct decode_pairs_empty as [e ->]. eexists. reflexivity.
Qed.

(** ** parseCAA *)

Lemma parseCAA_returns hexData : exists r, parseCAA hexData = Normal r.
Proof.
  unfold parseCAA. destruct (match_generic_record hexData); eauto.
  unfold try_catch. destruct (parseCAA_body _); eauto.
Qed.

Lemma parseCAA_no_match hexData :
  ~ has_generic_record hexData -> parseCAA hexData = Normal hexData.
Proof.
  intros H. apply match_generic_record_none in H. unfold parseCAA. now rewrite H.
Qed.

Lemma parseCAA_decodes w1 d w2 body flags tagLength rest :
  w1 <> "" -> string_forallb isWhiteSpace w1 = true ->
  d <> "" -> string_forallb isDigit d = true ->
  w2 <> "" -> string_forallb isWhiteSpace w2 = true ->
  bytes_of_hex (remove_spaces body) = Some (flags :: tagLength :: rest) ->
  0 < tagLength < Z.of_nat (List.length rest) ->
  exists out,
    decodeCAA_spec (flags :: tagLength :: rest) = Some out
    /\ parseCAA ("\#" ++ w1 ++ d ++ w2 ++ body) = Normal out.
Proof.
  intros N1 H1 Nd Hd N2 H2 Hb Hl. eexists. split; [reflexivity|].
  destruct (split_leading_space body) as (a & b & -> & Ha & Sb & E).
  rewrite E in Hb.
  destruct (bytes_of_hex_class _ _ Hb) as [Hc Hlen].
  assert (Nb : b <> "") by (intros ->; discriminate).
  replace ("\#" ++ w1 ++ d ++ w2 ++ a ++ b)
    with ("\#" ++ w1 ++ d ++ (w2 ++ a) ++ b) by now rewrite append_assoc.
  unfold parseCAA. rewrite match_generic_record_exact; auto.
  - now rewrite (parseCAA_body_decodes _ _ _ _ Hb Hl).
  - destruct w2; [congruence|discriminate].
  - rewrite string_forallb_app, H2, Ha. reflexivity.
  - now apply remove_spaces_class.
Qed.

(** ** The world *)

Lemma advance_nil w : advance [] [] w = w.
Proof. destruct w. unfold advance. cbn. now rewrite !app_nil_r. Qed.

Lemma advance_advance r1 m1 r2 m2 w :
  advance r2 m2 (advance r1 m1 w) = advance (r1 ++ r2) (m1 ++ m2) w.
Proof. unfold advance. cbn. now rewrite !app_assoc. Qed.

Lemma log_request_advance u w : log_request u w = advance [u] [] w.
Proof. unfold log_request, advance. now rewrite app_nil_r. Qed.

Lemma log_console_advance m w : log_console m w = advance [] [m] w.
Proof. unfold log_console, advance. now rewrite app_nil_r. Qed.

(** ** The queries *)

Lemma array_map_decode_record answer :
  array_map decode_record answer
  = Normal (map (fun record =>
                   {| RR.name := RR.name record; RR.type := RR.type record;
                      RR.TTL := RR.TTL record;
                      RR.data := decoded (RR.data record) |}) answer).
Proof.
  induction answer as [|a l IH]; cbn [array_map map]; auto.
  rewrite IH. unfold decode_record, decoded.
  destruct (parseCAA_returns (RR.data a)) as [r ->]. reflexivity.
Qed.

Lemma queryDNS_run net recordDomain recordType providerUrl w :
  queryDNS net recordDomain recordType providerUrl w
  = (match providerUrl with
     | None => Throw (TypeError "Invalid URL")
     | Some endpoint =>
         match net (query_url endpoint recordDomain recordType) with
         | None => Throw (TypeError "Failed to fetch")
         | Some r =>
             if ok r then
               match json r with
               | Some j => Normal j
               | None => Throw (Error "Unexpected token in JSON")
               end
             else Throw (Error ("HTTP error! status: " ++ toString (Int (status r))))
         end
     end,
     advance (requests_of providerUrl recordDomain recordType) [] w).
Proof.
  unfold queryDNS, bind, lift, new_URL, requests_of.
  destruct providerUrl as [endpoint|]; [|now rewrite advance_nil].
  unfold fetch, searchParams_set. cbn [href searchParams obj_set String.eqb Ascii.eqb Bool.eqb].
  fold (query_url endpoint recordDomain recordType).
  rewrite log_request_advance.
  destruct (net (query_url endpoint recordDomain recordType)) as [r|]; auto.
  destruct (ok r); cbn [negb]; auto.
  unfold response_json. destruct (json r); reflexivity.
Qed.

Lemma stored_nil provider type : stored provider type [] = [].
Proof. unfold stored. now destruct (_ && _). Qed.

Lemma stored_cons provider type a l :
  exists b m, stored provider type (a :: l) = b :: m.
Proof. unfold stored. destruct (_ && _); cbn [map]; eauto. Qed.

Lemma usual_step_run net cleanDomain providerUrl acc type w :
  usual_step net cleanDomain providerUrl acc type w
  = (Normal (add_entry acc type
               (stored (provider w) type
                  (answer_of net providerUrl cleanDomain type))),
     advance (requests_of providerUrl cleanDomain type)
             (diagnostics net providerUrl cleanDomain type type) w).
Proof.
  unfold usual_step, try_catchM, bind. rewrite queryDNS_run.
  unfold diagnostics, query_throws, query_fails, answer_of, modify, ret.
  destruct providerUrl as [endpoint|].
  2:{ rewrite log_console_advance, advance_advance, stored_nil. reflexivity. }
  destruct (net (query_url endpoint cleanDomain type)) as [r|].
  2:{ rewrite log_console_advance, advance_advance, stored_nil. reflexivity. }
  destruct (ok r); cbn [negb orb].
  2:{ rewrite log_console_advance, advance_advance, stored_nil. reflexivity. }
  destruct (json r) as [j|].
  2:{ rewrite log_console_advance, advance_advance, stored_nil. reflexivity. }
  unfold has_answer. destruct (Answer j) as [[|a l]|];
    try (rewrite stored_nil; reflexivity).
  unfold gets, lift. cbn [provider advance].
  destruct (stored_cons (provider w) type a l) as (b & m & E).
  unfold stored in *.
  destruct (String.eqb type "CAA" && String.eqb (provider w) "cloudflare").
  - rewrite array_map_decode_record, E. reflexivity.
  - reflexivity.
Qed.

Lemma email_step_run net cleanDomain providerUrl acc record w :
  email_step net cleanDomain providerUrl acc record w
  = (Normal (add_entry acc (Probe.label record)
               (answer_of net providerUrl (probe_domain cleanDomain record)
                          (Probe.type record))),
     advance (requests_of providerUrl (probe_domain cleanDomain record)
                          (Probe.type record))
             (diagnostics net providerUrl (probe_domain cleanDomain record)
                          (Probe.type record) (Probe.label record)) w).
Proof.
  unfold email_step, try_catchM, bind. fold (probe_domain cleanDomain record).
  rewrite queryDNS_run.
  unfold diagnostics, query_throws, query_fails, answer_of, modify, ret.
  destruct providerUrl as [endpoint|].
  2:{ rewrite log_console_advance, advance_advance. reflexivity. }
  destruct (net (query_url endpoint (probe_domain cleanDomain record)
                           (Probe.type record))) as [r|].
  2:{ rewrite log_console_advance, advance_advance. reflexivity. }
  destruct (ok r); cbn [negb orb].
  2:{ rewrite log_console_advance, advance_advance. reflexivity. }
  destruct (json r) as [j|].
  2:{ rewrite log_console_advance, advance_advance. reflexivity. }
  unfold has_answer. destruct (Answer j) as [[|a l]|]; reflexivity.
Qed.

Lemma usual_loop_run net cleanDomain p types : forall acc w,
  provider w = p ->
  usual_loop net cleanDomain (PROVIDERS p) types acc w
  = (Normal (usual_results net p cleanDomain types acc),
     advance (flat_map (requests_of (PROVIDERS p) cleanDomain) types)
             (flat_map (fun type =>
                          diagnostics net (PROVIDERS p) cleanDomain type type) types)
             w).
Proof.
  induction types as [|type rest IH]; intros acc w Hp.
  - cbn. now rewrite advance_nil.
  - cbn [usual_loop]. unfold bind. rewrite usual_step_run, IH by exact Hp.
    rewrite advance_advance, Hp. reflexivity.
Qed.

Lemma email_loop_run net cleanDomain p probes : forall acc w,
  email_loop net cleanDomain (PROVIDERS p) probes acc w
  = (Normal (email_results net p cleanDomain probes acc),
     advance (flat_map (fun record =>
                          requests_of (PROVIDERS p) (probe_domain cleanDomain record)
                                      (Probe.type record)) probes)
             (flat_map (fun record =>
                          diagnostics net (PROVIDERS p)
                            (probe_domain cleanDomain record)
                            (Probe.type record) (Probe.label record)) probes)
             w).
Proof.
  induction probes as [|record rest IH]; intros acc w.
  - cbn. now rewrite advance_nil.
  - cbn [email_loop]. unfold bind. rewrite email_step_run, IH.
    rewrite advance_advance. reflexivity.
Qed.

(** ** handleLookup *)

Lemma handleLookup_blank net w :
  trim (domain w) = "" ->
  handleLookup net w = (Normal tt, set_error "Please enter a domain name" w).
Proof.
  intros H. unfold handleLookup, bind, gets. rewrite H. reflexivity.
Qed.

Lemma handleLookup_runs net w :
  trim (domain w) <> "" ->
  handleLookup net w = (Normal tt, after_lookup net w).
Proof.
  intros H. apply String.eqb_neq in H.
  unfold handleLookup, bind, gets. rewrite H.
  unfold finallyM, try_catchM, lookup_body, bind, gets, modify.
  cbn [provider set_loading set_error set_results].
  rewrite (usual_loop_run net _ (provider w)) by reflexivity.
  rewrite email_loop_run.
  unfold after_lookup, lookup_result, lookup_requests, lookup_diagnostics,
    advance, set_results, set_loading, set_error, log_history.
  cbn. rewrite !app_assoc. reflexivity.
Qed.

(** ** Objects *)

Lemma obj_get_set {V} (o : object V) k v k' :
  obj_get (obj_set o k v) k' = if String.eqb k k' then Some v else obj_get o k'.
Proof.
  induction o as [|[k0 v0] o IH]; cbn [obj_set obj_get]; auto.
  destruct (String.eqb k0 k) eqn:E; cbn [obj_get].
  - apply String.eqb_eq in E. subst k0. now destruct (String.eqb k k').
  - destruct (String.eqb k0 k') eqn:E'; auto.
    apply String.eqb_eq in E'. subst k'. now rewrite String.eqb_sym, E.
Qed.

Lemma in_keys {V} (o : object V) k :
  In k (keys o) <-> exists v, obj_get o k = Some v.
Proof.
  induction o as [|[k0 v0] o IH]; cbn [keys map obj_get In fst].
  - split; [tauto|]. intros [v H]. discriminate.
  - destruct (String.eqb k0 k) eqn:E.
    + apply String.eqb_eq in E. split; eauto.
    + apply String.eqb_neq in E. fold (keys o). rewrite IH. tauto.
Qed.

Lemma obj_get_bound {V} (o : object V) k v : obj_get o k = Some v -> In (k, v) o.
Proof.
  induction o as [|[k0 v0] o IH]; cbn [obj_get In]; [discriminate|].
  destruct (String.eqb k0 k) eqn:E; auto.
  apply String.eqb_eq in E. intros H. injection H as ->. subst. auto.
Qed.

Lemma in_obj_set {V} (o : object V) k v k' v' :
  In (k', v') (obj_set o k v) -> (k' = k /\ v' = v) \/ In (k', v') o.
Proof.
  induction o as [|[k0 v0] o IH]; cbn [obj_set In].
  - intros [H|[]]. injection H as <- <-. auto.
  - destruct (String.eqb k0 k) eqn:E; cbn [In].
    + apply String.eqb_eq in E. subst k0. intros [H|H]; auto.
      injection H as <- <-. auto.
    + intros [H|H]; auto. apply IH in H. tauto.
Qed.

Section Collect.
Context {X V : Type} (key : X -> string) (val : X -> list V).

Lemma collect_get_inv xs : forall acc k v,
  obj_get (fold_left (fun acc x => add_entry acc (key x) (val x)) xs acc) k
  = Some v ->
  obj_get acc k = Some v
  \/ exists x, In x xs /\ key x = k /\ val x = v /\ v <> [].
Proof.
  induction xs as [|x xs IH]; cbn [fold_left]; intros acc k v H; auto.
  apply IH in H. destruct H as [H|(y & Hy & Hk & Hv & N)].
  - unfold add_entry in H. destruct (val x) as [|a l] eqn:E; auto.
    rewrite obj_get_set in H. destruct (String.eqb (key x) k) eqn:Ek; auto.
    apply String.eqb_eq in Ek. injection H as <-.
    right. exists x. cbn [In]. repeat split; auto. discriminate.
  - right. exists y. cbn [In]. auto.
Qed.

Lemma collect_get_other xs : forall acc k,
  (forall x, In x xs -> key x <> k) ->
  obj_get (fold_left (fun acc x => add_entry acc (key x) (val x)) xs acc) k
  = obj_get acc k.
Proof.
  induction xs as [|x xs IH]; cbn [fold_left]; intros acc k H; auto.
  rewrite IH by (intros y Hy; apply H; cbn [In]; auto).
  unfold add_entry. destruct (val x); auto.
  rewrite obj_get_set.
  destruct (String.eqb (key x) k) eqn:E; auto.
  apply String.eqb_eq in E. exfalso. apply (H x); cbn [In]; auto.
Qed.

Lemma collect_get_in xs : forall acc x,
  NoDup (map key xs) -> In x xs -> val x <> [] ->
  obj_get (fold_left (fun acc x => add_entry acc (key x) (val x)) xs acc)
          (key x)
  = Some (val x).
Proof.
  induction xs as [|y xs IH]; cbn [fold_left map In]; intros acc x D Hx N;
    [tauto|].
  inversion D as [|? ? Hy D']; subst.
  destruct Hx as [->|Hx].
  - rewrite collect_get_other.
    + unfold add_entry. destruct (val x); [congruence|].
      now rewrite obj_get_set, String.eqb_refl.
    + intros z Hz E. apply Hy. rewrite <- E. now apply in_map.
  - now apply IH.
Qed.

Lemma collect_nothing xs : forall acc,
  (forall x, In x xs -> val x = []) ->
  fold_left (fun acc x => add_entry acc (key x) (val x)) xs acc = acc.
Proof.
  induction xs as [|x xs IH]; cbn [fold_left]; intros acc H; auto.
  rewrite (H x) by (cbn [In]; auto). cbn [add_entry].
  apply IH. intros y Hy. apply H. cbn [In]. auto.
Qed.

Lemma collect_bound xs : forall acc k v,
  In (k, v) (fold_left (fun acc x => add_entry acc (key x) (val x)) xs acc) ->
  In (k, v) acc \/ v <> [].
Proof.
  induction xs as [|x xs IH]; cbn [fold_left]; intros acc k v H; auto.
  apply IH in H. destruct H as [H|H]; auto.
  unfold add_entry in H. destruct (val x) as [|a l] eqn:E; auto.
  apply in_obj_set in H. destruct H as [[_ ->]|H]; auto.
  right. discriminate.
Qed.
End Collect.

(** ** The configuration *)

Lemma usual_NoDup : NoDup (map (fun type : string => type) RECORD_TYPES.usual).
Proof.
  cbn. repeat (constructor; [cbn [In]; intuition discriminate|]). constructor.
Qed.

Lemma labels_NoDup : NoDup (map Probe.label RECORD_TYPES.emailSecurity).
Proof.
  cbn. repeat (constructor; [cbn [In]; intuition discriminate|]). constructor.
Qed.

Lemma label_not_spf record :
  In record RECORD_TYPES.emailSecurity -> Probe.label record <> "SPF (TXT)".
Proof.
  cbn. intros H. repeat (destruct H as [<-|H]; [discriminate|]). destruct H.
Qed.

Lemma PROVIDERS_known id endpoint :
  PROVIDERS id = Some endpoint <->
  (id = "google" /\ endpoint = "https://dns.google/resolve")
  \/ (id = "cloudflare" /\ endpoint = "https://cloudflare-dns.com/dns-query").
Proof.
  unfold PROVIDERS.
  destruct (String.eqb_spec id "google") as [->|N1].
  - split; [intros H; injection H as <-; auto|].
    intros [[_ ->]|[H _]]; [reflexivity|discriminate].
  - destruct (String.eqb_spec id "cloudflare") as [->|N2].
    + split; [intros H; injection H as <-; auto|].
      intros [[H _]|[_ ->]]; [discriminate|reflexivity].
    + split; [discriminate|]. intros [[H _]|[H _]]; congruence.
Qed.

Lemma PROVIDERS_unknown id :
  id <> "google" -> id <> "cloudflare" -> PROVIDERS id = None.
Proof.
  intros N1 N2. unfold PROVIDERS.
  apply String.eqb_neq in N1, N2. now rewrite N1, N2.
Qed.

Lemma throws_no_answer net providerUrl recordDomain recordType :
  query_throws net providerUrl recordDomain recordType = true ->
  answer_of net providerUrl recordDomain recordType = [].
Proof.
  unfold query_throws, query_fails, answer_of.
  destruct providerUrl as [endpoint|]; auto.
  destruct (net _) as [r|]; auto.
  destruct (ok r); auto. destruct (json r); auto. discriminate.
Qed.

Lemma stored_empty provider type answer :
  stored provider type answer = [] <-> answer = [].
Proof.
  split; [|intros ->; apply stored_nil].
  destruct answer as [|a l]; auto.
  destruct (stored_cons provider type a l) as (b & m & ->). discriminate.
Qed.

Lemma lookup_requests_known p endpoint cleanDomain :
  PROVIDERS p = Some endpoint ->
  lookup_requests p cleanDomain
  = (map (query_url endpoint cleanDomain) RECORD_TYPES.usual
     ++ map (fun record => query_url endpoint (probe_domain cleanDomain record)
                                     (Probe.type record))
            RECORD_TYPES.emailSecurity)%list.
Proof. intros E. unfold lookup_requests. rewrite E. reflexivity. Qed.

Lemma lookup_requests_unknown p cleanDomain :
  PROVIDERS p = None -> lookup_requests p cleanDomain = [].
Proof. intros E. unfold lookup_requests. rewrite E. reflexivity. Qed.

Lemma positive_length {A} (l : list A) :
  (0 <? Z.of_nat (List.length l)) = match l with [] => false | _ :: _ => true end.
Proof. destruct l; reflexivity. Qed.

Lemma extract_spf_get usualResults label v :
  obj_get (extract_spf usualResults []) label = Some v <->
  label = "SPF (TXT)" /\ v <> []
  /\ exists txt, obj_get usualResults "TXT" = Some txt /\ v = filter is_spf txt.
Proof.
  unfold extract_spf.
  destruct (obj_get usualResults "TXT") as [txt|].
  2:{ cbn [obj_get]. split; [discriminate|].
      intros (_ & _ & txt & H & _). discriminate. }
  rewrite positive_length.
  destruct (filter is_spf txt) as [|a l] eqn:E; cbn [obj_get obj_set].
  - split; [discriminate|]. intros (_ & N & txt' & H & ->).
    injection H as <-. congruence.
  - destruct (String.eqb_spec "SPF (TXT)" label) as [<-|N].
    + split.
      * intros H. injection H as <-. repeat split; [discriminate|eauto].
      * intros (_ & _ & txt' & H & ->). injection H as <-. now rewrite E.
    + split; [discriminate|]. intros [H _]. congruence.
Qed.

(** ** The SPF test *)

Lemma prefix_spec t : forall s,
  String.prefix t s = true <-> exists post, s = t ++ post.
Proof.
  induction t as [|a t IH]; intros [|b s]; cbn [String.prefix append].
  - split; eauto.
  - split; eauto.
  - split; [discriminate|]. intros [post H]. discriminate.
  - destruct (ascii_dec a b) as [->|N].
    + rewrite IH. split; intros [post H]; exists post; congruence.
    + split; [discriminate|]. intros [post H]. congruence.
Qed.

Lemma includes_spec t : forall s,
  includes s t = true <-> exists pre post, s = pre ++ t ++ post.
Proof.
  induction s as [|a s IH].
  - cbn [includes]. destruct (String.prefix t "") eqn:E.
    + apply prefix_spec in E. destruct E as [post E].
      split; auto. intros _. exists "", post. exact E.
    + split; [discriminate|]. intros (pre & post & H).
      destruct pre; [|discriminate]. cbn [append] in H.
      assert (String.prefix t "" = true) by (apply prefix_spec; eauto).
      congruence.
  - cbn [includes]. destruct (String.prefix t (String a s)) eqn:E.
    + apply prefix_spec in E. destruct E as [post E].
      split; auto. intros _. exists "", post. exact E.
    + rewrite IH. split.
      * intros (pre & post & ->). exists (String a pre), post. reflexivity.
      * intros (pre & post & H). destruct pre as [|c pre].
        -- cbn [append] in H.
           assert (String.prefix t (String a s) = true)
             by (apply prefix_spec; eauto).
           congruence.
        -- cbn [append] in H. injection H as _ ->. eauto.
Qed.

Lemma toLowerCase_app a b :
  toLowerCase (a ++ b) = toLowerCase a ++ toLowerCase b.
Proof. induction a; cbn [append toLowerCase]; congruence. Qed.

Lemma toLowerCase_app_inv a : forall b s,
  toLowerCase s = a ++ b ->
  exists s1 s2, s = s1 ++ s2 /\ toLowerCase s1 = a /\ toLowerCase s2 = b.
Proof.
  induction a as [|c a IH]; intros b s H.
  - exists "", s. auto.
  - destruct s as [|c' s]; [discriminate|].
    cbn [toLowerCase append] in H. injection H as Hc H.
    destruct (IH _ _ H) as (s1 & s2 & -> & H1 & H2).
    exists (String c' s1), s2. cbn [toLowerCase append]. now rewrite Hc, H1.
Qed.

Lemma is_spf_spec record :
  is_spf record = true <-> mentions_spf1 (RR.data record).
Proof.
  unfold is_spf, mentions_spf1. split.
  - intros H. apply andb_true_iff in H. destruct H as [_ H].
    apply includes_spec in H. destruct H as (pre & post & H).
    apply toLowerCase_app_inv in H. destruct H as (s1 & s2 & E & _ & H).
    apply toLowerCase_app_inv in H. destruct H as (m & q & -> & Hm & _).
    eauto.
  - intros (pre & mid & post & -> & Hm). apply andb_true_iff. split.
    + apply negb_true_iff, String.eqb_neq.
      destruct mid; [discriminate|]. destruct pre; discriminate.
    + apply includes_spec. rewrite !toLowerCase_app, Hm. eauto.
Qed.

(** ** Cleaning the domain *)

Lemma upper_space c : isWhiteSpace (upper c) = isWhiteSpace c.
Proof. ascii_cases c; reflexivity. Qed.

Lemma upper_slash c : Ascii.eqb (upper c) "/" = Ascii.eqb c "/".
Proof. ascii_cases c; reflexivity. Qed.

Lemma lower_space c : isWhiteSpace (lower c) = isWhiteSpace c.
Proof. ascii_cases c; reflexivity. Qed.

Lemma lower_slash c : Ascii.eqb (lower c) "/" = Ascii.eqb c "/".
Proof. ascii_cases c; reflexivity. Qed.

Lemma lower_upper c : lower (upper c) = lower c.
Proof. ascii_cases c; reflexivity. Qed.

Lemma toLowerCase_toUpperCase s : toLowerCase (toUpperCase s) = toLowerCase s.
Proof.
  induction s; cbn [toLowerCase toUpperCase]; auto.
  now rewrite lower_upper, IHs.
Qed.

Lemma trimStart_toUpperCase s : trimStart (toUpperCase s) = toUpperCase (trimStart s).
Proof.
  induction s as [|c s IH]; cbn [trimStart toUpperCase]; auto.
  rewrite upper_space. now destruct (isWhiteSpace c).
Qed.

Lemma ends_plain_toUpperCase s : ends_plain (toUpperCase s) = ends_plain s.
Proof.
  induction s as [|c s IH]; auto.
  destruct s as [|c' s]; cbn [toUpperCase ends_plain] in *.
  - now rewrite upper_space, upper_slash.
  - exact IH.
Qed.

Lemma ends_plain_toLowerCase s : ends_plain (toLowerCase s) = ends_plain s.
Proof.
  induction s as [|c s IH]; auto.
  destruct s as [|c' s]; cbn [toLowerCase ends_plain] in *.
  - now rewrite lower_space, lower_slash.
  - exact IH.
Qed.

Lemma ends_plain_trimStart s : ends_plain s = true -> ends_plain (trimStart s) = true.
Proof.
  induction s as [|c s IH]; auto. cbn [trimStart].
  destruct (isWhiteSpace c) eqn:E; auto.
  destruct s as [|c' s]; cbn [ends_plain]; auto.
  rewrite E. discriminate.
Qed.

Lemma trimStart_app s t :
  ends_plain s = true -> trimStart (s ++ t) = trimStart s ++ t.
Proof.
  induction s as [|c s IH]; [discriminate|]. cbn [append trimStart].
  destruct (isWhiteSpace c) eqn:E; auto.
  destruct s as [|c' s]; cbn [ends_plain]; auto.
  rewrite E. discriminate.
Qed.

Lemma trimEnd_plain s : ends_plain s = true -> trimEnd s = s.
Proof.
  induction s as [|c s IH]; auto.
  destruct s as [|c' s]; cbn [ends_plain].
  - cbn. intros H. apply andb_true_iff in H. destruct H as [H _].
    apply negb_true_iff in H. now rewrite H.
  - intros H. change (trimEnd (String c (String c' s)))
      with (match trimEnd (String c' s) with
            | "" => if isWhiteSpace c then "" else String c ""
            | t => String c t
            end).
    now rewrite (IH H).
Qed.

Lemma trimEnd_slash_space s : trimEnd (s ++ "/ ") = s ++ "/".
Proof.
  induction s as [|c s IH]; [reflexivity|].
  cbn [append trimEnd]. rewrite IH. now destruct s.
Qed.

Lemma strip_trailing_slash_app s : strip_trailing_slash (s ++ "/") = s.
Proof.
  induction s as [|c s IH]; [reflexivity|].
  cbn [append strip_trailing_slash].
  destruct (s ++ "/") as [|c' s'] eqn:E.
  - destruct s; discriminate.
  - now rewrite IH.
Qed.

Lemma strip_trailing_slash_plain s :
  ends_plain s = true -> strip_trailing_slash s = s.
Proof.
  induction s as [|c s IH]; auto.
  destruct s as [|c' s].
  - cbn [ends_plain strip_trailing_slash].
    intros H. apply andb_true_iff in H. destruct H as [_ H].
    apply negb_true_iff in H. now rewrite H.
  - intros H.
    change (strip_trailing_slash (String c (String c' s)))
      with (String c (strip_trailing_slash (String c' s))).
    now rewrite (IH H).
Qed.

Lemma match_scheme_http r : match_scheme ("http://" ++ r) = Some r.
Proof. reflexivity. Qed.

Lemma match_scheme_https r : match_scheme ("https://" ++ r) = Some r.
Proof. reflexivity. Qed.

Lemma match_scheme_sound s r :
  match_scheme s = Some r -> s = "http://" ++ r \/ s = "https://" ++ r.
Proof.
  unfold match_scheme. intros H.
  apply re_lit_sound in H. destruct H as (r1 & -> & H).
  destruct (re_lit "s" r1 (fun r2 => re_lit "://" r2 Some)) as [x|] eqn:E.
  - injection H as ->.
    apply re_lit_sound in E. destruct E as (r2 & -> & E).
    apply re_lit_sound in E. destruct E as (r3 & -> & E).
    injection E as ->. right. reflexivity.
  - apply re_lit_sound in H. destruct H as (r2 & -> & H).
    injection H as ->. left. reflexivity.
Qed.

Lemma app_last_inv a : forall s c b,
  s ++ String c "" = a ++ b -> b <> "" ->
  exists b', b = b' ++ String c "" /\ s = a ++ b'.
Proof.
  induction a as [|x a IH]; cbn [append]; intros s c b H N.
  - exists s. auto.
  - destruct s as [|y s]; cbn [append] in H.
    + injection H as _ H. destruct a; [|discriminate].
      cbn [append] in H. congruence.
    + injection H as -> H. destruct (IH _ _ _ H N) as (b' & -> & ->). eauto.
Qed.

Lemma strip_scheme_slash L :
  ends_plain L = true ->
  strip_scheme (L ++ "/") = strip_scheme L ++ "/"
  /\ ends_plain (strip_scheme L) = true.
Proof.
  intros HL. unfold strip_scheme. destruct (match_scheme L) as [r|] eqn:E.
  - apply match_scheme_sound in E. destruct E as [-> | ->].
    + rewrite append_assoc, match_scheme_http. split; auto.
      destruct r; [discriminate|exact HL].
    + rewrite append_assoc, match_scheme_https. split; auto.
      destruct r; [discriminate|exact HL].
  - split; auto.
    destruct (match_scheme (L ++ "/")) as [r|] eqn:E2; auto. exfalso.
    apply match_scheme_sound in E2. destruct E2 as [E2|E2].
    + destruct r as [|c r].
      * change ("http://" ++ "") with ("http:/" ++ "/") in E2.
        apply app_last_inv in E2; [|discriminate].
        destruct E2 as (b' & Hb & ->).
        destruct b' as [|? [|? ?]]; try discriminate.
      * apply app_last_inv in E2; [|discriminate].
        destruct E2 as (b' & _ & ->). rewrite match_scheme_http in E.
        discriminate.
    + destruct r as [|c r].
      * change ("https://" ++ "") with ("https:/" ++ "/") in E2.
        apply app_last_inv in E2; [|discriminate].
        destruct E2 as (b' & Hb & ->).
        destruct b' as [|? [|? ?]]; try discriminate.
      * apply app_last_inv in E2; [|discriminate].
        destruct E2 as (b' & _ & ->). rewrite match_scheme_https in E.
        discriminate.
Qed.

Lemma ends_plain_nonempty s : ends_plain s = true -> s <> "".
Proof. destruct s; [discriminate|discriminate]. Qed.

Lemma clean_padded d :
  ends_plain d = true ->
  clean ("  " ++ toUpperCase d ++ "/ ") = clean d
  /\ trim ("  " ++ toUpperCase d ++ "/ ") <> ""
  /\ trim d <> "".
Proof.
  intros H. unfold clean, trim.
  change (trimStart ("  " ++ toUpperCase d ++ "/ "))
    with (trimStart (toUpperCase d ++ "/ ")).
  rewrite trimStart_app by now rewrite ends_plain_toUpperCase.
  rewrite trimStart_toUpperCase, trimEnd_slash_space.
  pose proof (ends_plain_trimStart _ H) as H'.
  rewrite (trimEnd_plain _ H').
  rewrite toLowerCase_app, toLowerCase_toUpperCase.
  assert (HL : ends_plain (toLowerCase (trimStart d)) = true)
    by now rewrite ends_plain_toLowerCase.
  destruct (strip_scheme_slash _ HL) as [E P].
  change (toLowerCase "/") with "/". rewrite E.
  rewrite strip_trailing_slash_app, (strip_trailing_slash_plain _ P).
  repeat split.
  - destruct (toUpperCase (trimStart d)); discriminate.
  - now apply ends_plain_nonempty.
Qed.

(** * The claims *)

(** ** The decoder *)

(** The wire bytes of the specification's example decode as it says. *)
Lemma parseCAA_wire_example :
  parseCAA wire_example = Normal ("0 issue " ++ dquote ++ "testca.com" ++ dquote).
Proof. vm_compute. reflexivity. Qed.

(** A record whose tag or whose value has no byte makes the [try] block
    throw: [match] gives [null] on the empty string. *)
Lemma parseCAA_body_empty_segment hexBytes flags tagLength rest :
  bytes_of_hex hexBytes = Some (flags :: tagLength :: rest) ->
  tagLength = 0 \/ tagLength = Z.of_nat (List.length rest) ->
  exists e, parseCAA_body hexBytes = Throw e.
Proof.
  intros Hb Hl.
  destruct (bytes_of_hex_class _ _ Hb) as [_ Hlen]. cbn [List.length] in Hlen.
  destruct hexBytes as [|a [|b [|c [|d h]]]]; cbn [bytes_of_hex] in Hb;
    try discriminate.
  - destruct (hexval a), (hexval b); discriminate.
  - destruct (hexval a), (hexval b); discriminate.
  - destruct (hexval a) as [x|] eqn:Ea; [|discriminate].
    destruct (hexval b) as [y|] eqn:Eb; [|discriminate].
    destruct (hexval c) as [x'|] eqn:Ec; [|discriminate].
    destruct (hexval d) as [y'|] eqn:Ed; [|discriminate].
    destruct (bytes_of_hex h) as [bs|] eqn:Eh; [|discriminate].
    assert (E : tagLength = 16 * x' + y' /\ rest = bs) by (split; congruence).
    destruct E as (Et & ->). clear Hb.
    unfold parseCAA_body.
    change (Int 2) with (Int (Z.of_nat 2)).
    rewrite !substr_nat by (cbn [String.length]; lia).
    cbn [substring]. rewrite !substring_0_0.
    rewrite (parseInt16_pair _ _ _ _ Ec Ed), <- Et. cbn [mul add].
    destruct Hl as [->| ->].
    + rewrite substr_no_length by (cbn [ToIntegerOrInfinity]; lia).
      destruct decode_pairs_empty as [e ->]. eexists. reflexivity.
    + destruct (decode_pairs _) as [tag|e]; cbn [cbind]; [|eauto].
      rewrite substr_past_end by (cbn [String.length] in *; lia).
      destruct decode_pairs_empty as [e ->]. eexists. reflexivity.
Qed.

(** [parseCAA_decodes] at the wire bytes of the specification's example. *)
Example parseCAA_decodes_wire_example :
  exists out,
    decodeCAA_spec [0; 5; 105; 115; 115; 117; 101;
                    116; 101; 115; 116; 99; 97; 46; 99; 111; 109] = Some out
    /\ parseCAA wire_example = Normal out.
Proof.
  apply (parseCAA_decodes " " "17" " "
           "00 05 69 73 73 75 65 74 65 73 74 63 61 2e 63 6f 6d");
    try discriminate; try reflexivity.
  cbn [List.length]. lia.
Qed.

(** C1 (the code departs from the claim).  The generic record with flags 0,
    the tag [issue] and no value byte stands for the bytes
    [00 05 69 73 73 75 65], whose display form is [0 issue] and an empty quoted value; [parseCAA]
    returns the input unchanged instead, since [valueHex.match(/.{2}/g)] is
    [null] on the empty string and [.map] throws inside the [try]. *)
Theorem parseCAA_empty_value_not_decoded :
  bytes_of_hex (remove_spaces "00 05 69 73 73 75 65")
  = Some [0; 5; 105; 115; 115; 117; 101]
  /\ decodeCAA_spec [0; 5; 105; 115; 115; 117; 101]
     = Some ("0 issue " ++ dquote ++ dquote)
  /\ parseCAA "\# 7 00 05 69 73 73 75 65" = Normal "\# 7 00 05 69 73 73 75 65".
Proof. repeat split; vm_compute; reflexivity. Qed.

(** C2, counterexample: the input [\# 19 0005697373756574657374"ca.com"]
    is not returned unchanged; the expression is not anchored, it matches
    up to the quote and the hexadecimal digits before it are decoded. *)
Lemma parseCAA_quoted_example_decoded :
  parseCAA quoted_example = Normal ("0 issue " ++ dquote ++ "test" ++ dquote)
  /\ parseCAA quoted_example <> Normal quoted_example.
Proof. split; vm_compute; [reflexivity|discriminate]. Qed.

(** C2, as amended: an input that nowhere contains backslash-hash, white
    space, decimal digits, white space and then a hexadecimal digit or a
    white space character is returned unchanged; and only such an input
    fails to match. *)
Theorem parseCAA_unmatched_unchanged hexData :
  ~ has_generic_record hexData ->
  match_generic_record hexData = None /\ parseCAA hexData = Normal hexData.
Proof.
  intros H. split; [now apply match_generic_record_none|].
  now apply parseCAA_no_match.
Qed.

Lemma parseCAA_unmatched_unchanged_witness :
  ~ has_generic_record display_example
  /\ match_generic_record display_example = None
  /\ parseCAA display_example = Normal display_example.
Proof.
  assert (H : ~ has_generic_record display_example)
    by (apply match_generic_record_none; vm_compute; reflexivity).
  split; [exact H|]. apply (parseCAA_unmatched_unchanged display_example H).
Defined.

(** C3 (the code departs from the claim).  With [tagLength = 0] (flags 128,
    empty tag, value [x]) the bytes [80 00 78] have the display form
    [128  "x"], and with no value byte the bytes [00 01 61] have the form
    [0 a] and an empty quoted value; [parseCAA] returns both inputs
    unchanged, because [match(/.{2}/g)] is [null] on an empty segment. *)
Theorem parseCAA_zero_length_segments_not_decoded :
  (bytes_of_hex (remove_spaces "80 00 78") = Some [128; 0; 120]
   /\ decodeCAA_spec [128; 0; 120] = Some ("128  " ++ dquote ++ "x" ++ dquote)
   /\ parseCAA "\# 3 80 00 78" = Normal "\# 3 80 00 78")
  /\ (bytes_of_hex (remove_spaces "00 01 61") = Some [0; 1; 97]
      /\ decodeCAA_spec [0; 1; 97] = Some ("0 a " ++ dquote ++ dquote)
      /\ parseCAA "\# 3 00 01 61" = Normal "\# 3 00 01 61").
Proof. repeat split; vm_compute; reflexivity. Qed.

(** C4, counterexample: a length that disagrees with the bytes, an odd
    number of hexadecimal digits and a character that is no hexadecimal
    digit are not errors for [parseCAA]: the length is never read, the odd
    digit and the text from the bad character on are dropped, and the
    result is not the input. *)
Lemma parseCAA_lenient_inputs_decoded :
  parseCAA "\# 99 00 01 61 62" = Normal ("0 a " ++ dquote ++ "b" ++ dquote)
  /\ parseCAA "\# 4 00 01 61 62 6" = Normal ("0 a " ++ dquote ++ "b" ++ dquote)
  /\ parseCAA "\# 4 00 01 61 62 zz" = Normal ("0 a " ++ dquote ++ "b" ++ dquote)
  /\ parseCAA "\# 99 00 01 61 62" <> Normal "\# 99 00 01 61 62".
Proof. repeat split; vm_compute; try reflexivity. discriminate. Qed.

(** C4, as amended: [parseCAA] returns a string on every input string, no
    exception leaves it; whatever is thrown inside the [try] block is
    answered with the input; and the input is what it returns whenever the
    bytes end before the tag is complete. *)
Theorem parseCAA_never_throws hexData :
  (exists r, parseCAA hexData = Normal r)
  /\ (forall group1 e,
        match_generic_record hexData = Some group1 ->
        parseCAA_body (remove_spaces group1) = Throw e ->
        parseCAA hexData = Normal hexData)
  /\ (input_overruns hexData = true -> parseCAA hexData = Normal hexData).
Proof.
  split; [apply parseCAA_returns|]. split.
  - intros g e Hm Hb. unfold parseCAA. now rewrite Hm, Hb.
  - unfold input_overruns, parseCAA.
    destruct (match_generic_record hexData) as [g|]; [|discriminate].
    intros H. apply parseCAA_body_overrun in H. destruct H as [e ->].
    reflexivity.
Qed.

Lemma parseCAA_never_throws_witness :
  input_overruns "\# 4 00 09 61 62" = true
  /\ parseCAA "\# 4 00 09 61 62" = Normal "\# 4 00 09 61 62".
Proof.
  split; [vm_compute; reflexivity|].
  apply (proj2 (proj2 (parseCAA_never_throws "\# 4 00 09 61 62"))).
  vm_compute. reflexivity.
Defined.

(** ** The lookup *)

Lemma lookup_result_usual_get net p c type v :
  obj_get (Result.usual (lookup_result net p c)) type = Some v ->
  In type RECORD_TYPES.usual
  /\ v = stored p type (answer_of net (PROVIDERS p) c type)
  /\ answer_of net (PROVIDERS p) c type <> [].
Proof.
  cbn [lookup_result Result.usual]. unfold usual_results. intros H.
  apply (collect_get_inv (fun type : string => type)) in H.
  destruct H as [H|(x & Hx & -> & <- & N)]; [discriminate|].
  repeat split; auto. intros E. apply N. rewrite E. apply stored_nil.
Qed.

Lemma lookup_result_usual_in net p c type :
  In type RECORD_TYPES.usual ->
  answer_of net (PROVIDERS p) c type <> [] ->
  obj_get (Result.usual (lookup_result net p c)) type
  = Some (stored p type (answer_of net (PROVIDERS p) c type)).
Proof.
  intros Hin N. cbn [lookup_result Result.usual]. unfold usual_results.
  apply (collect_get_in (fun type : string => type)
           (fun type => stored p type (answer_of net (PROVIDERS p) c type)));
    auto using usual_NoDup.
  now rewrite stored_empty.
Qed.

Lemma lookup_result_email_get net p c label v :
  obj_get (Result.emailSecurity (lookup_result net p c)) label = Some v ->
  (label = "SPF (TXT)" /\ v <> []
   /\ exists txt, obj_get (Result.usual (lookup_result net p c)) "TXT" = Some txt
                  /\ v = filter is_spf txt)
  \/ (exists record,
        In record RECORD_TYPES.emailSecurity /\ label = Probe.label record
        /\ v = answer_of net (PROVIDERS p) (probe_domain c record)
                         (Probe.type record)
        /\ v <> []).
Proof.
  cbn [lookup_result Result.usual Result.emailSecurity]. unfold email_results.
  intros H. apply collect_get_inv in H.
  destruct H as [H|(x & Hx & <- & <- & N)].
  - left. now apply extract_spf_get.
  - right. exists x. auto.
Qed.

Lemma lookup_result_spf net p c :
  obj_get (Result.emailSecurity (lookup_result net p c)) "SPF (TXT)"
  = obj_get (extract_spf (Result.usual (lookup_result net p c)) []) "SPF (TXT)".
Proof.
  cbn [lookup_result Result.usual Result.emailSecurity]. unfold email_results.
  apply collect_get_other. intros x Hx. now apply label_not_spf.
Qed.

Lemma lookup_result_email_in net p c record :
  In record RECORD_TYPES.emailSecurity ->
  answer_of net (PROVIDERS p) (probe_domain c record) (Probe.type record) <> [] ->
  obj_get (Result.emailSecurity (lookup_result net p c)) (Probe.label record)
  = Some (answer_of net (PROVIDERS p) (probe_domain c record) (Probe.type record)).
Proof.
  intros Hin N. cbn [lookup_result Result.emailSecurity]. unfold email_results.
  apply (collect_get_in Probe.label
           (fun record => answer_of net (PROVIDERS p) (probe_domain c record)
                                    (Probe.type record)));
    auto using labels_NoDup.
Qed.

Lemma probe_label_injective x y :
  In x RECORD_TYPES.emailSecurity -> In y RECORD_TYPES.emailSecurity ->
  Probe.label x = Probe.label y -> x = y.
Proof.
  cbn. intros Hx Hy.
  repeat (destruct Hx as [<-|Hx]);
    repeat (destruct Hy as [<-|Hy]); cbn; intros E;
    try reflexivity; try discriminate; try contradiction.
Qed.

Lemma lookup_result_nothing net p c :
  (forall type, In type RECORD_TYPES.usual ->
                answer_of net (PROVIDERS p) c type = []) ->
  (forall record, In record RECORD_TYPES.emailSecurity ->
                  answer_of net (PROVIDERS p) (probe_domain c record)
                            (Probe.type record) = []) ->
  Result.usual (lookup_result net p c) = []
  /\ Result.emailSecurity (lookup_result net p c) = [].
Proof.
  intros Hu He. cbn [lookup_result Result.usual Result.emailSecurity].
  unfold usual_results, email_results.
  rewrite (collect_nothing (fun type : string => type)).
  2:{ intros x Hx. rewrite (Hu x Hx). apply stored_nil. }
  split; auto. now rewrite collect_nothing.
Qed.

Lemma lookup_result_bound net p c :
  (forall k v, In (k, v) (Result.usual (lookup_result net p c)) -> v <> [])
  /\ (forall k v, In (k, v) (Result.emailSecurity (lookup_result net p c)) ->
                  v <> []).
Proof.
  cbn [lookup_result Result.usual Result.emailSecurity].
  unfold usual_results, email_results. split; intros k v H.
  - apply (collect_bound (fun type : string => type)) in H.
    destruct H as [[]|H]; auto.
  - apply collect_bound in H. destruct H as [H|H]; auto.
    unfold extract_spf in H.
    destruct (obj_get _ "TXT") as [txt|]; [|destruct H].
    rewrite positive_length in H.
    destruct (filter is_spf txt) eqn:E; [destruct H|].
    cbn in H. destruct H as [H|[]]. injection H as _ <-. discriminate.
Qed.

(** C5.  A lookup whose domain is not blank ends normally with a result and
    no error; every fetch of the lookup is issued whatever the others did
    (for a known provider the seven types, then the six probes); a query
    that fails (rejected fetch, status not ok, body not JSON) leaves no
    entry for its type or label; and when all of them fail both mappings are
    empty. *)
Theorem failed_queries_are_skipped net w :
  trim (domain w) <> "" ->
  exists r w',
    handleLookup net w = (Normal tt, w')
    /\ results w' = Some r /\ error w' = "" /\ loading w' = false
    /\ requests w'
       = (requests w ++ lookup_requests (provider w) (clean (domain w)))%list
    /\ (forall endpoint,
          PROVIDERS (provider w) = Some endpoint ->
          lookup_requests (provider w) (clean (domain w))
          = (map (query_url endpoint (clean (domain w))) RECORD_TYPES.usual
             ++ map (fun record =>
                       query_url endpoint
                                 (probe_domain (clean (domain w)) record)
                                 (Probe.type record))
                    RECORD_TYPES.emailSecurity)%list)
    /\ (forall type,
          query_throws net (PROVIDERS (provider w)) (clean (domain w)) type = true ->
          obj_get (Result.usual r) type = None)
    /\ (forall record,
          In record RECORD_TYPES.emailSecurity ->
          query_throws net (PROVIDERS (provider w))
                       (probe_domain (clean (domain w)) record)
                       (Probe.type record) = true ->
          obj_get (Result.emailSecurity r) (Probe.label record) = None)
    /\ ((forall u, In u (lookup_requests (provider w) (clean (domain w))) ->
                   query_fails net u = true) ->
        Result.usual r = [] /\ Result.emailSecurity r = []).
Proof.
  intros H. exists (lookup_result net (provider w) (clean (domain w))).
  exists (after_lookup net w).
  split; [now apply handleLookup_runs|].
  repeat (split; [reflexivity|]).
  split; [intros e E; now apply lookup_requests_known|].
  split; [|split].
  - intros type Ht.
    destruct (obj_get _ type) as [v|] eqn:E; auto.
    apply lookup_result_usual_get in E. destruct E as (_ & _ & N).
    now rewrite throws_no_answer in N.
  - intros record Hin Ht.
    destruct (obj_get _ (Probe.label record)) as [v|] eqn:E; auto.
    apply lookup_result_email_get in E.
    destruct E as [(E & _)|(x & Hx & E & -> & N)].
    + now apply label_not_spf in E.
    + apply probe_label_injective in E; auto. subst x.
      now rewrite throws_no_answer in N.
  - intros Hall. apply lookup_result_nothing.
    + intros type Hin. apply throws_no_answer. unfold query_throws.
      destruct (PROVIDERS (provider w)) as [e|] eqn:E; auto.
      apply Hall. rewrite (lookup_requests_known _ _ _ E).
      apply in_or_app. left. now apply in_map.
    + intros record Hin. apply throws_no_answer. unfold query_throws.
      destruct (PROVIDERS (provider w)) as [e|] eqn:E; auto.
      apply Hall. rewrite (lookup_requests_known _ _ _ E).
      apply in_or_app. right.
      now apply (in_map (fun record => query_url e (probe_domain _ record)
                                                 (Probe.type record))).
Qed.

Lemma failed_queries_are_skipped_witness :
  trim (domain (set_domain "example.com" initial)) <> ""
  /\ exists r w',
       handleLookup offline (set_domain "example.com" initial) = (Normal tt, w')
       /\ results w' = Some r /\ error w' = ""
       /\ List.length (requests w') = 13%nat
       /\ Result.usual r = [] /\ Result.emailSecurity r = [].
Proof.
  assert (H : trim (domain (set_domain "example.com" initial)) <> "")
    by (vm_compute; discriminate).
  split; [exact H|].
  destruct (failed_queries_are_skipped offline _ H)
    as (r & w' & E & Hr & He & _ & Hq & Hk & _ & _ & Hall).
  exists r, w'. repeat (split; [assumption|]). split.
  - rewrite Hq. reflexivity.
  - apply Hall. intros u _. reflexivity.
Defined.

(** C6.  In the result of a lookup a type is a key of the standard mapping
    exactly when its query obtained at least one record, and a label is a
    key of the email-security mapping exactly when it is [SPF (TXT)] with at
    least one matching TXT record or the label of a probe whose query
    obtained at least one record; a query answered with no record gives no
    entry, as a failed one; and no entry of either mapping is an empty
    sequence. *)
Theorem keys_iff_records_obtained net w :
  trim (domain w) <> "" ->
  exists r w',
    handleLookup net w = (Normal tt, w') /\ results w' = Some r
    /\ (forall type,
          In type (keys (Result.usual r)) <->
          In type RECORD_TYPES.usual
          /\ answer_of net (PROVIDERS (provider w)) (clean (domain w)) type <> [])
    /\ (forall label,
          In label (keys (Result.emailSecurity r)) <->
          (label = "SPF (TXT)"
           /\ exists txt, obj_get (Result.usual r) "TXT" = Some txt
                          /\ filter is_spf txt <> [])
          \/ (exists record,
                In record RECORD_TYPES.emailSecurity
                /\ label = Probe.label record
                /\ answer_of net (PROVIDERS (provider w))
                             (probe_domain (clean (domain w)) record)
                             (Probe.type record) <> []))
    /\ (forall k v, In (k, v) (Result.usual r) -> v <> [])
    /\ (forall k v, In (k, v) (Result.emailSecurity r) -> v <> []).
Proof.
  intros H. exists (lookup_result net (provider w) (clean (domain w))).
  exists (after_lookup net w).
  split; [now apply handleLookup_runs|]. split; [reflexivity|].
  split; [|split; [|apply lookup_result_bound]].
  - intros type. rewrite in_keys. split.
    + intros [v E]. apply lookup_result_usual_get in E. tauto.
    + intros [Hin N]. eexists. now apply lookup_result_usual_in.
  - intros label. rewrite in_keys. split.
    + intros [v E]. apply lookup_result_email_get in E.
      destruct E as [(-> & N & txt & Ht & ->)|(x & Hx & -> & -> & N)].
      * left. eauto.
      * right. eauto.
    + intros [(-> & txt & Ht & N)|(x & Hx & -> & N)].
      * exists (filter is_spf txt). rewrite lookup_result_spf.
        apply extract_spf_get. eauto.
      * eexists. now apply lookup_result_email_in.
Qed.

Lemma keys_iff_records_obtained_witness :
  trim (domain (set_domain "a.com" initial)) <> ""
  /\ exists r,
       results (snd (handleLookup (answering "a.com" "NS" [])
                                  (set_domain "a.com" initial))) = Some r
       /\ ~ In "NS" (keys (Result.usual r))
       /\ (forall k v, In (k, v) (Result.usual r) -> v <> []).
Proof.
  assert (H : trim (domain (set_domain "a.com" initial)) <> "")
    by (vm_compute; discriminate).
  split; [exact H|].
  destruct (keys_iff_records_obtained (answering "a.com" "NS" []) _ H)
    as (r & w' & E & Hr & Hu & _ & Hb & _).
  exists r. rewrite E. split; [exact Hr|]. split; [|exact Hb].
  intros Hin. apply Hu in Hin. destruct Hin as [_ N]. apply N. reflexivity.
Defined.

(** C7.  The entry [SPF (TXT)] of the email-security mapping is the filter
    of the TXT entry of the standard mapping of the same result, kept only
    when the filter is not empty; a record passes the filter exactly when
    its data mentions [v=spf1] in some mix of cases; and of the two TXT
    strings of the specification's example only the first passes. *)
Theorem spf_entry_is_filtered_txt net w :
  trim (domain w) <> "" ->
  exists r w',
    handleLookup net w = (Normal tt, w') /\ results w' = Some r
    /\ obj_get (Result.emailSecurity r) "SPF (TXT)"
       = match obj_get (Result.usual r) "TXT" with
         | Some txt => match filter is_spf txt with
                       | [] => None
                       | spfRecords => Some spfRecords
                       end
         | None => None
         end
    /\ (forall record, is_spf record = true <-> mentions_spf1 (RR.data record))
    /\ filter is_spf [sample_record "v=spf1 include:_spf.example.com ~all";
                      sample_record "other-txt"]
       = [sample_record "v=spf1 include:_spf.example.com ~all"].
Proof.
  intros H. exists (lookup_result net (provider w) (clean (domain w))).
  exists (after_lookup net w).
  split; [now apply handleLookup_runs|]. split; [reflexivity|].
  split; [|split; [apply is_spf_spec|reflexivity]].
  rewrite lookup_result_spf. unfold extract_spf.
  destruct (obj_get _ "TXT") as [txt|]; auto.
  rewrite positive_length.
  destruct (filter is_spf txt); reflexivity.
Qed.

Lemma spf_entry_is_filtered_txt_witness :
  trim (domain (set_domain "a.com" initial)) <> ""
  /\ exists r,
       results (snd (handleLookup
                       (answering "a.com" "TXT"
                          [sample_record "v=spf1 include:_spf.example.com ~all";
                           sample_record "other-txt"])
                       (set_domain "a.com" initial))) = Some r
       /\ obj_get (Result.emailSecurity r) "SPF (TXT)"
          = Some [sample_record "v=spf1 include:_spf.example.com ~all"].
Proof.
  assert (H : trim (domain (set_domain "a.com" initial)) <> "")
    by (vm_compute; discriminate).
  split; [exact H|].
  destruct (spf_entry_is_filtered_txt
              (answering "a.com" "TXT"
                 [sample_record "v=spf1 include:_spf.example.com ~all";
                  sample_record "other-txt"]) _ H)
    as (r & w' & E & Hr & Hs & _ & _).
  exists r. rewrite E. split; [exact Hr|].
  rewrite Hs. vm_compute in E. injection E as <-.
  vm_compute in Hr. injection Hr as <-. vm_compute. reflexivity.
Defined.

(** C8.  When the domain is empty after trimming, [handleLookup] sets the
    error to [Please enter a domain name] and returns: no fetch is issued
    and nothing else changes. *)
Theorem blank_domain_is_refused net w :
  trim (domain w) = "" ->
  exists w',
    handleLookup net w = (Normal tt, w')
    /\ error w' = "Please enter a domain name"
    /\ requests w' = requests w
    /\ results w' = results w
    /\ w' = set_error "Please enter a domain name" w.
Proof.
  intros H. exists (set_error "Please enter a domain name" w).
  split; [now apply handleLookup_blank|]. repeat split.
Qed.

Lemma blank_domain_is_refused_witness :
  trim (domain initial) = ""
  /\ exists w',
       handleLookup offline initial = (Normal tt, w')
       /\ error w' = "Please enter a domain name"
       /\ requests w' = requests initial
       /\ results w' = results initial
       /\ w' = set_error "Please enter a domain name" initial.
Proof.
  split; [reflexivity|]. apply (blank_domain_is_refused offline initial).
  reflexivity.
Defined.

(** C9, counterexample: for the pasted address [d = "https://a.com/"] the
    padded input ["  HTTPS://A.COM// "] is cleaned to [a.com/], and [d] to
    [a.com]: one trailing slash is stripped, not two.  On a network that
    knows [a.com] the two lookups end with different results. *)
Lemma padded_lookup_differs :
  clean ("  " ++ toUpperCase "https://a.com/" ++ "/ ") = "a.com/"
  /\ clean "https://a.com/" = "a.com"
  /\ results (snd (handleLookup (answering "a.com" "A" [sample_record "192.0.2.1"])
                     (set_domain ("  " ++ toUpperCase "https://a.com/" ++ "/ ")
                                 initial)))
     <> results (snd (handleLookup (answering "a.com" "A" [sample_record "192.0.2.1"])
                        (set_domain "https://a.com/" initial))).
Proof. repeat split; vm_compute; try reflexivity. discriminate. Qed.

(** C9, as amended: the domain is trimmed, put in lower case, freed of a
    leading [http://] or [https://] and of one trailing slash, and the
    string so cleaned is the subject of the queries and the [domain] of the
    result; for every ASCII [d] whose last character is neither white space
    nor a slash, the lookup of ["  " + d.toUpperCase() + "/ "] ends as the
    lookup of [d] does, the typed domain apart. *)
Theorem padded_lookup_agrees net w d :
  is_ascii d = true -> ends_plain d = true ->
  clean ("  " ++ toUpperCase d ++ "/ ") = clean d
  /\ exists r w',
       handleLookup net (set_domain d w) = (Normal tt, w')
       /\ handleLookup net (set_domain ("  " ++ toUpperCase d ++ "/ ") w)
          = (Normal tt, set_domain ("  " ++ toUpperCase d ++ "/ ") w')
       /\ results w' = Some r
       /\ Result.domain r = clean d
       /\ requests w' = (requests w ++ lookup_requests (provider w) (clean d))%list.
Proof.
  intros _ H. destruct (clean_padded d H) as (E & N1 & N2).
  split; [exact E|].
  exists (lookup_result net (provider w) (clean d)).
  exists (after_lookup net (set_domain d w)).
  split; [now apply handleLookup_runs|].
  split; [|repeat split].
  rewrite handleLookup_runs by exact N1.
  unfold after_lookup, set_domain. cbn [domain provider requests console history].
  now rewrite E.
Qed.

Lemma padded_lookup_agrees_witness :
  is_ascii "Example.com" = true /\ ends_plain "Example.com" = true
  /\ clean ("  " ++ toUpperCase "Example.com" ++ "/ ") = clean "Example.com"
  /\ exists r w',
       handleLookup offline (set_domain "Example.com" initial) = (Normal tt, w')
       /\ handleLookup offline
            (set_domain ("  " ++ toUpperCase "Example.com" ++ "/ ") initial)
          = (Normal tt, set_domain ("  " ++ toUpperCase "Example.com" ++ "/ ") w')
       /\ results w' = Some r
       /\ Result.domain r = clean "Example.com"
       /\ requests w'
          = (requests initial
             ++ lookup_requests (provider initial) (clean "Example.com"))%list.
Proof.
  split; [reflexivity|]. split; [reflexivity|].
  apply (padded_lookup_agrees offline initial "Example.com"); reflexivity.
Defined.

(** C10.  For a provider id that is neither [google] nor [cloudflare] no
    URL can be built, every query throws inside its own [try], no fetch is
    issued, and the lookup ends normally with no error and a result whose
    two mappings are empty. *)
Theorem unknown_provider_gives_empty_result net w :
  trim (domain w) <> "" ->
  provider w <> "google" -> provider w <> "cloudflare" ->
  (forall recordDomain recordType w0,
      exists e w1,
        queryDNS net recordDomain recordType (PROVIDERS (provider w)) w0
        = (Throw e, w1) /\ requests w1 = requests w0)
  /\ exists w',
       handleLookup net w = (Normal tt, w')
       /\ error w' = "" /\ loading w' = false
       /\ requests w' = requests w
       /\ results w'
          = Some {| Result.domain := clean (domain w);
                    Result.provider := "1.1.1.1";
                    Result.usual := [];
                    Result.emailSecurity := [] |}.
Proof.
  intros H N1 N2. pose proof (PROVIDERS_unknown _ N1 N2) as E. split.
  - intros recordDomain recordType w0. rewrite E, queryDNS_run.
    do 2 eexists. split; [reflexivity|]. cbn. apply app_nil_r.
  - exists (after_lookup net w). split; [now apply handleLookup_runs|].
    repeat (split; [reflexivity|]). split.
    + cbn [after_lookup requests]. rewrite (lookup_requests_unknown _ _ E).
      apply app_nil_r.
    + cbn [after_lookup results]. f_equal.
      destruct (lookup_result_nothing net (provider w) (clean (domain w)))
        as [Hu He].
      * intros type _. now rewrite E.
      * intros record _. now rewrite E.
      * unfold lookup_result in *. cbn [Result.usual Result.emailSecurity] in *.
        apply String.eqb_neq in N1. rewrite N1.
        rewrite He. rewrite Hu. reflexivity.
Qed.

Lemma unknown_provider_gives_empty_result_witness :
  trim "a.com" <> "" /\ "constructor" <> "google" /\ "constructor" <> "cloudflare"
  /\ exists w',
       handleLookup offline
         {| domain := "a.com"; provider := "constructor"; loading := false;
            error := ""; results := None; requests := []; console := [];
            history := [] |} = (Normal tt, w')
       /\ error w' = "" /\ requests w' = []
       /\ results w'
          = Some {| Result.domain := "a.com"; Result.provider := "1.1.1.1";
                    Result.usual := []; Result.emailSecurity := [] |}.
Proof.
  assert (H : trim "a.com" <> "") by (vm_compute; discriminate).
  assert (N1 : "constructor" <> "google") by discriminate.
  assert (N2 : "constructor" <> "cloudflare") by discriminate.
  repeat (split; [assumption|]).
  destruct (unknown_provider_gives_empty_result offline
              {| domain := "a.com"; provider := "constructor"; loading := false;
                 error := ""; results := None; requests := []; console := [];
                 history := [] |} H N1 N2)
    as (_ & w' & E & He & _ & Hq & Hr).
  exists w'. repeat (split; [assumption|]). exact Hr.
Defined.

(** * Further properties *)

(** ** The decoder on every input *)

Lemma class_split c :
  isHexOrSpace c = true -> isWhiteSpace c = true \/ isHexDigit c = true.
Proof.
  ascii_cases c; vm_compute; intros H; try discriminate; auto.
Qed.

Lemma remove_spaces_hex g :
  string_forallb isHexOrSpace g = true ->
  string_forallb isHexDigit (remove_spaces g) = true.
Proof.
  induction g as [|c g IH]; cbn [string_forallb remove_spaces]; auto.
  intros H. apply andb_true_iff in H. destruct H as [Hc Hg].
  destruct (isWhiteSpace c) eqn:E; auto.
  cbn [string_forallb]. rewrite (IH Hg), andb_true_r.
  destruct (class_split _ Hc); congruence.
Qed.

Lemma match_generic_record_group s g :
  match_generic_record s = Some g ->
  string_forallb isHexOrSpace g = true.
Proof.
  unfold match_generic_record, generic_record_at. intros H.
  apply re_search_sound in H. destruct H as (pre & r & -> & H).
  apply re_lit_sound in H. destruct H as (r0 & -> & H).
  apply re_plus_sound in H. destruct H as (w1 & r1 & -> & Hw1 & H).
  apply re_plus_sound in H. destruct H as (d & r2 & -> & Hd & H).
  apply re_plus_sound in H. destruct H as (w2 & r3 & -> & Hw2 & H).
  apply re_plus_sound in H. destruct H as (g' & post & -> & Hg & H).
  injection H as <-. apply Hg.
Qed.

(** A string of hexadecimal digits is its even prefix and at most one more
    digit, and the even prefix stands for bytes. *)
Lemma even_prefix_split h :
  string_forallb isHexDigit h = true ->
  exists t bs,
    h = even_prefix h ++ t /\ (String.length t <= 1)%nat
    /\ bytes_of_hex (even_prefix h) = Some bs.
Proof.
  pattern h. apply string_pair_ind; clear h.
  - intros _. exists "", []. auto.
  - intros a _. exists (String a ""), []. cbn. auto.
  - intros a b s IH H. cbn [string_forallb] in H.
    apply andb_true_iff in H. destruct H as [Ha H].
    apply andb_true_iff in H. destruct H as [Hb H].
    destruct (IH H) as (t & bs & E & Ht & Hbs).
    unfold isHexDigit in Ha, Hb.
    destruct (hexval a) as [x|] eqn:Ea; [|discriminate].
    destruct (hexval b) as [y|] eqn:Eb; [|discriminate].
    exists t, (16 * x + y :: bs). cbn [even_prefix append bytes_of_hex].
    rewrite Ea, Eb, Hbs, <- E. auto.
Qed.

Lemma matches_dot2_tail : forall x bs t,
  bytes_of_hex x = Some bs -> (String.length t <= 1)%nat ->
  matches_dot2 (x ++ t) = matches_dot2 x.
Proof.
  intros x. pattern x. apply string_pair_ind; clear x.
  - intros bs t _ Ht. destruct t as [|c [|c' t]]; cbn in *; auto. lia.
  - intros a bs t H. discriminate.
  - intros a b s IH bs t H Ht. cbn [bytes_of_hex] in H.
    destruct (hexval a) eqn:Ea; [|discriminate].
    destruct (hexval b) eqn:Eb; [|discriminate].
    destruct (bytes_of_hex s) eqn:Es; [|discriminate].
    cbn [append matches_dot2].
    rewrite (hex_not_terminator _ _ Ea), (hex_not_terminator _ _ Eb).
    cbn [negb andb]. now rewrite (IH l t eq_refl Ht).
Qed.

Lemma decode_pairs_tail x bs t :
  bytes_of_hex x = Some bs -> (String.length t <= 1)%nat ->
  decode_pairs (x ++ t)
  = match bs with
    | [] => Throw null_map
    | _ :: _ => Normal (decode_ascii bs)
    end.
Proof.
  intros H Ht. unfold decode_pairs, match_dot2_g.
  rewrite (matches_dot2_tail _ _ _ H Ht).
  pose proof (matches_dot2_hex _ _ H) as E.
  destruct (matches_dot2 x) as [|p l]; destruct bs as [|b bs];
    try discriminate; auto.
  unfold decode_ascii, join. now rewrite E.
Qed.

Lemma substring_app_prefix : forall n a b,
  (n <= String.length a)%nat -> substring 0 n (a ++ b) = substring 0 n a.
Proof.
  induction n as [|n IH]; intros a b H.
  - now rewrite !substring_0_0.
  - destruct a as [|c a]; cbn [String.length] in H; [lia|].
    cbn [append substring]. rewrite IH by lia. reflexivity.
Qed.

Lemma substring_all s : substring 0 (String.length s) s = s.
Proof. induction s; cbn; congruence. Qed.

Lemma substring_app_suffix : forall i a b,
  (i <= String.length a)%nat ->
  substring i (String.length (a ++ b) - i) (a ++ b)
  = substring i (String.length a - i) a ++ b.
Proof.
  induction i as [|i IH]; intros a b H.
  - rewrite !Nat.sub_0_r, !substring_all. reflexivity.
  - destruct a as [|c a]; cbn [String.length] in H; [lia|].
    cbn [append String.length substring Nat.sub]. apply IH. lia.
Qed.

Lemma parseCAA_body_throw hexBytes e :
  parseCAA_body hexBytes = Throw e -> e = null_map.
Proof.
  unfold parseCAA_body, decode_pairs.
  destruct (match_dot2_g (substr hexBytes (Int 4) _)); cbn [cbind].
  - destruct (match_dot2_g _); cbn [cbind]; [discriminate|].
    intros H. now injection H as <-.
  - intros H. now injection H as <-.
Qed.

Lemma parseCAA_body_short hexBytes :
  (String.length hexBytes <= 4)%nat -> parseCAA_body hexBytes = Throw null_map.
Proof.
  intros H. unfold parseCAA_body.
  rewrite (substr_past_end hexBytes 4) by lia. reflexivity.
Qed.

(** The [try] block on any string of hexadecimal digits. *)
Lemma parseCAA_body_spec hexBytes :
  string_forallb isHexDigit hexBytes = true ->
  parseCAA_body hexBytes
  = match bytes_of_hex (even_prefix hexBytes) with
    | Some (flags :: tagLength :: rest) =>
        if (0 <? tagLength) && (tagLength <? Z.of_nat (List.length rest))
        then Normal (display flags
                       (decode_ascii (firstn (Z.to_nat tagLength) rest))
                       (decode_ascii (skipn (Z.to_nat tagLength) rest)))
        else Throw null_map
    | _ => Throw null_map
    end.
Proof.
  intros Hhex.
  destruct hexBytes as [|a [|b [|c [|d h]]]];
    try (rewrite parseCAA_body_short by (cbn; lia); cbn [even_prefix bytes_of_hex];
         try reflexivity; destruct (hexval a), (hexval b); reflexivity).
  cbn [string_forallb] in Hhex.
  apply andb_true_iff in Hhex. destruct Hhex as [Ha Hhex].
  apply andb_true_iff in Hhex. destruct Hhex as [Hb Hhex].
  apply andb_true_iff in Hhex. destruct Hhex as [Hc Hhex].
  apply andb_true_iff in Hhex. destruct Hhex as [Hd Hhex].
  unfold isHexDigit in Ha, Hb, Hc, Hd.
  destruct (hexval a) as [x|] eqn:Ea; [|discriminate].
  destruct (hexval b) as [y|] eqn:Eb; [|discriminate].
  destruct (hexval c) as [x'|] eqn:Ec; [|discriminate].
  destruct (hexval d) as [y'|] eqn:Ed; [|discriminate].
  destruct (even_prefix_split h Hhex) as (t & rest & Eh & Ht & Hrest).
  cbn [even_prefix bytes_of_hex]. rewrite Ea, Eb, Ec, Ed, Hrest.
  set (flags := 16 * x + y). set (tagLength := 16 * x' + y').
  pose proof (hexval_range _ _ Ec) as Rx. pose proof (hexval_range _ _ Ed) as Ry.
  destruct (bytes_of_hex_class _ _ Hrest) as [_ Hlen].
  assert (Hh : String.length h = (2 * List.length rest + String.length t)%nat).
  { rewrite Eh at 1. rewrite length_append. lia. }
  assert (Htl : parseInt16 (substr (String a (String b (String c (String d h))))
                                   (Int 2) (Some (Int 2))) = Int tagLength).
  { change (Int 2) with (Int (Z.of_nat 2)).
    rewrite substr_nat by (cbn [String.length]; lia).
    cbn [substring]. rewrite ?substring_0_0. apply (parseInt16_pair _ _ _ _ Ec Ed). }
  destruct (Z.ltb_spec 0 tagLength) as [Hpos|Hzero]; cbn [andb].
  2:{ (* no tag byte *)
    unfold parseCAA_body. rewrite Htl. cbn [mul].
    rewrite substr_no_length by (cbn [ToIntegerOrInfinity]; lia). reflexivity. }
  destruct (Z.ltb_spec tagLength (Z.of_nat (List.length rest))) as [Hlt|Hge].
  - (* the tag and at least one value byte are there *)
    set (n := Z.to_nat tagLength).
    assert (Hn : tagLength = Z.of_nat n) by (unfold n; lia).
    destruct (bytes_of_hex_split n _ _ Hrest) as [Htag Hval]; [lia|].
    unfold parseCAA_body. rewrite Htl.
    change (Int 0) with (Int (Z.of_nat 0)).
    change (Int 2) with (Int (Z.of_nat 2)).
    change (Int 4) with (Int (Z.of_nat 4)).
    rewrite substr_nat by (cbn [String.length]; lia).
    cbn [substring]. rewrite ?substring_0_0.
    rewrite (parseInt16_pair _ _ _ _ Ea Eb). fold flags. cbn [mul add].
    replace (tagLength * Z.of_nat 2) with (Z.of_nat (2 * n)) by lia.
    replace (Z.of_nat 4 + Z.of_nat (2 * n)) with (Z.of_nat (4 + 2 * n)) by lia.
    rewrite substr_nat by (cbn [String.length]; lia).
    rewrite substr_to_end by (cbn [String.length]; lia).
    rewrite substring_skip4.
    change (substring 4 (2 * n) (String a (String b (String c (String d h)))))
      with (substring 0 (2 * n) h).
    replace (String.length (String a (String b (String c (String d h))))
             - (4 + 2 * n))%nat
      with (String.length h - 2 * n)%nat by (cbn [String.length]; lia).
    remember (even_prefix h) as he eqn:Ehe. clear Ehe. subst h.
    rewrite substring_app_prefix by lia.
    rewrite substring_app_suffix by lia.
    rewrite (decode_pairs_hex _ _ Htag).
    2:{ intros E. apply (f_equal (@List.length Z)) in E.
        rewrite length_firstn in E. cbn [List.length] in E. lia. }
    cbn [cbind]. rewrite (decode_pairs_tail _ _ _ Hval Ht).
    destruct (skipn n rest) eqn:Es; [|reflexivity].
    apply (f_equal (@List.length Z)) in Es.
    rewrite length_skipn in Es. cbn [List.length] in Es. lia.
  - (* the tag takes every byte, or more *)
    destruct (Z.eq_dec tagLength (Z.of_nat (List.length rest))) as [Heq|Hne].
    + set (n := List.length rest) in *.
      destruct (bytes_of_hex_split n _ _ Hrest) as [_ Hval]; [lia|].
      assert (X : exists e,
                 parseCAA_body (String a (String b (String c (String d h))))
                 = Throw e).
      { unfold parseCAA_body. rewrite Htl. cbn [mul add].
        destruct (decode_pairs _) as [tag|e]; cbn [cbind]; [|eauto].
        replace (4 + tagLength * 2) with (Z.of_nat (4 + 2 * n)) by lia.
        rewrite substr_to_end by (cbn [String.length]; lia).
        rewrite substring_skip4.
        replace (String.length (String a (String b (String c (String d h))))
                 - (4 + 2 * n))%nat
          with (String.length h - 2 * n)%nat by (cbn [String.length]; lia).
        remember (even_prefix h) as he eqn:Ehe. clear Ehe. subst h.
        rewrite substring_app_suffix by lia.
        rewrite (decode_pairs_tail _ _ _ Hval Ht).
        unfold n. rewrite skipn_all. cbn [cbind]. eauto. }
      destruct X as [e X]. rewrite X. f_equal.
      now apply parseCAA_body_throw in X.
    + assert (O : tag_overruns (String a (String b (String c (String d h)))) = true).
      { unfold tag_overruns. rewrite Htl. apply Z.ltb_lt.
        cbn [String.length]. lia. }
      apply parseCAA_body_overrun in O. destruct O as [e O].
      rewrite O. f_equal. now apply parseCAA_body_throw in O.
Qed.

(** X1.  On every input string [parseCAA] returns the input when the
    expression does not match, and otherwise what the bytes of group 1 give:
    their display form when there are a flags byte, a tag length between 1
    and the number of bytes after it less one, and so at least one value
    byte, and the input in every other case.  An odd last hexadecimal digit
    is left out. *)
Theorem parseCAA_on_every_input hexData :
  parseCAA hexData
  = Normal match match_generic_record hexData with
           | None => hexData
           | Some group1 => decoded_group hexData group1
           end.
Proof.
  unfold parseCAA. destruct (match_generic_record hexData) as [g|] eqn:E; auto.
  rewrite parseCAA_body_spec
    by (apply remove_spaces_hex; eapply match_generic_record_group; eauto).
  unfold decoded_group.
  destruct (bytes_of_hex _) as [[|flags [|tagLength rest]]|]; auto.
  now destruct (_ && _).
Qed.

(** X2.  A generic record that starts the text (backslash-hash, white space,
    any decimal length, white space, then hexadecimal digits with any white
    space among them) and holds a flags byte, a tag of at least one byte and
    a value of at least one byte is decoded to the display form of its
    bytes, as the specification words it. *)
Theorem parseCAA_decodes_record w1 d w2 body flags tagLength rest :
  w1 <> "" -> string_forallb isWhiteSpace w1 = true ->
  d <> "" -> string_forallb isDigit d = true ->
  w2 <> "" -> string_forallb isWhiteSpace w2 = true ->
  bytes_of_hex (remove_spaces body) = Some (flags :: tagLength :: rest) ->
  0 < tagLength < Z.of_nat (List.length rest) ->
  decodeCAA_spec (flags :: tagLength :: rest)
  = Some (display flags
            (decode_ascii (firstn (Z.to_nat tagLength) rest))
            (decode_ascii (skipn (Z.to_nat tagLength) rest)))
  /\ parseCAA ("\#" ++ w1 ++ d ++ w2 ++ body)
     = Normal (display flags
                 (decode_ascii (firstn (Z.to_nat tagLength) rest))
                 (decode_ascii (skipn (Z.to_nat tagLength) rest))).
Proof.
  intros N1 H1 Nd Hd N2 H2 Hb Hl. split; [reflexivity|].
  destruct (parseCAA_decodes _ _ _ _ _ _ _ N1 H1 Nd Hd N2 H2 Hb Hl)
    as (out & E & ->).
  cbn [decodeCAA_spec] in E. now injection E as <-.
Qed.

Lemma parseCAA_decodes_record_witness :
  parseCAA ("\#" ++ " " ++ "8" ++ "  " ++ "00 05 69 73 73 75 65 3b")
  = Normal (display 0 (decode_ascii [105; 115; 115; 117; 101]) (decode_ascii [59])).
Proof.
  apply (parseCAA_decodes_record " " "8" "  " "00 05 69 73 73 75 65 3b"
           0 5 [105; 115; 115; 117; 101; 59]);
    try discriminate; try reflexivity.
  cbn [List.length]. lia.
Defined.

Lemma hexval_upper c : hexval (upper c) = hexval c.
Proof. ascii_cases c; reflexivity. Qed.

Lemma hexval_lower c : hexval (lower c) = hexval c.
Proof. ascii_cases c; reflexivity. Qed.

Lemma bytes_of_hex_toUpperCase h : bytes_of_hex (toUpperCase h) = bytes_of_hex h.
Proof.
  pattern h. apply string_pair_ind; clear h; auto.
  intros a b s IH. cbn [toUpperCase bytes_of_hex].
  now rewrite !hexval_upper, IH.
Qed.

Lemma bytes_of_hex_toLowerCase h : bytes_of_hex (toLowerCase h) = bytes_of_hex h.
Proof.
  pattern h. apply string_pair_ind; clear h; auto.
  intros a b s IH. cbn [toLowerCase bytes_of_hex].
  now rewrite !hexval_lower, IH.
Qed.

Lemma remove_spaces_toUpperCase s :
  remove_spaces (toUpperCase s) = toUpperCase (remove_spaces s).
Proof.
  induction s as [|c s IH]; cbn [toUpperCase remove_spaces]; auto.
  rewrite upper_space. destruct (isWhiteSpace c); cbn [toUpperCase]; congruence.
Qed.

Lemma remove_spaces_toLowerCase s :
  remove_spaces (toLowerCase s) = toLowerCase (remove_spaces s).
Proof.
  induction s as [|c s IH]; cbn [toLowerCase remove_spaces]; auto.
  rewrite lower_space. destruct (isWhiteSpace c); cbn [toLowerCase]; congruence.
Qed.

(** X3.  The case of the hexadecimal letters does not matter: such a record
    decodes to the same text with its digits in upper case, in lower case
    or as they are. *)
Theorem parseCAA_ignores_hex_case w1 d w2 body flags tagLength rest :
  w1 <> "" -> string_forallb isWhiteSpace w1 = true ->
  d <> "" -> string_forallb isDigit d = true ->
  w2 <> "" -> string_forallb isWhiteSpace w2 = true ->
  bytes_of_hex (remove_spaces body) = Some (flags :: tagLength :: rest) ->
  0 < tagLength < Z.of_nat (List.length rest) ->
  parseCAA ("\#" ++ w1 ++ d ++ w2 ++ toUpperCase body)
  = parseCAA ("\#" ++ w1 ++ d ++ w2 ++ body)
  /\ parseCAA ("\#" ++ w1 ++ d ++ w2 ++ toLowerCase body)
     = parseCAA ("\#" ++ w1 ++ d ++ w2 ++ body).
Proof.
  intros N1 H1 Nd Hd N2 H2 Hb Hl.
  destruct (parseCAA_decodes _ _ _ _ _ _ _ N1 H1 Nd Hd N2 H2 Hb Hl)
    as (out & E & ->).
  split.
  - destruct (parseCAA_decodes w1 d w2 (toUpperCase body) flags tagLength rest)
      as (out' & E' & ->); auto; [|congruence].
    now rewrite remove_spaces_toUpperCase, bytes_of_hex_toUpperCase.
  - destruct (parseCAA_decodes w1 d w2 (toLowerCase body) flags tagLength rest)
      as (out' & E' & ->); auto; [|congruence].
    now rewrite remove_spaces_toLowerCase, bytes_of_hex_toLowerCase.
Qed.

Lemma parseCAA_ignores_hex_case_witness :
  parseCAA ("\#" ++ " " ++ "8" ++ " " ++ toUpperCase "00 05 69 73 73 75 65 3b")
  = parseCAA ("\#" ++ " " ++ "8" ++ " " ++ "00 05 69 73 73 75 65 3b")
  /\ parseCAA ("\#" ++ " " ++ "8" ++ " " ++ toLowerCase "00 05 69 73 73 75 65 3b")
     = parseCAA ("\#" ++ " " ++ "8" ++ " " ++ "00 05 69 73 73 75 65 3b").
Proof.
  apply (parseCAA_ignores_hex_case " " "8" " " "00 05 69 73 73 75 65 3b"
           0 5 [105; 115; 115; 117; 101; 59]);
    try discriminate; try reflexivity.
  cbn [List.length]. lia.
Defined.

(** ** The order and the content of the results *)

Lemma keys_obj_set_new {V} (o : object V) k v :
  ~ In k (keys o) -> keys (obj_set o k v) = (keys o ++ [k])%list.
Proof.
  induction o as [|[k0 v0] o IH]; cbn [keys map obj_set fst app]; auto.
  intros H. destruct (String.eqb_spec k0 k) as [->|N].
  - exfalso. apply H. cbn. auto.
  - cbn [map fst]. fold (keys o). fold (keys (obj_set o k v)).
    rewrite IH; auto. intros Hin. apply H. cbn. auto.
Qed.

Section CollectKeys.
Context {X V : Type} (key : X -> string) (val : X -> list V).

Lemma collect_keys xs : forall acc,
  NoDup (map key xs) ->
  (forall x, In x xs -> ~ In (key x) (keys acc)) ->
  keys (fold_left (fun acc x => add_entry acc (key x) (val x)) xs acc)
  = (keys acc ++ map key (filter (fun x => has_records (val x)) xs))%list.
Proof.
  induction xs as [|x xs IH]; cbn [fold_left map filter]; intros acc D H.
  - now rewrite app_nil_r.
  - inversion D as [|? ? Hx D']; subst.
    assert (Hacc : ~ In (key x) (keys acc)) by (apply H; cbn; auto).
    destruct (val x) as [|a l] eqn:E; cbn [add_entry has_records].
    + apply IH; auto. intros y Hy. apply H. cbn. auto.
    + rewrite IH; auto.
      * rewrite keys_obj_set_new by exact Hacc.
        cbn [map]. now rewrite <- app_assoc.
      * intros y Hy. rewrite keys_obj_set_new by exact Hacc.
        intros Hin. apply in_app_or in Hin. destruct Hin as [Hin|[Hin|[]]].
        -- apply (H y); cbn; auto.
        -- apply Hx. rewrite Hin. now apply in_map.
Qed.
End CollectKeys.

Lemma has_records_stored p type answer :
  has_records (stored p type answer) = has_records answer.
Proof.
  destruct answer as [|a l]; [now rewrite stored_nil|].
  destruct (stored_cons p type a l) as (b & m & ->). reflexivity.
Qed.

Lemma lookup_result_usual_keys net p c :
  keys (Result.usual (lookup_result net p c))
  = filter (fun type => has_records (answer_of net (PROVIDERS p) c type))
           RECORD_TYPES.usual.
Proof.
  cbn [lookup_result Result.usual]. unfold usual_results.
  rewrite (collect_keys (fun type : string => type)
             (fun type => stored p type (answer_of net (PROVIDERS p) c type)));
    auto using usual_NoDup.
  cbn [keys map app]. rewrite map_id. apply filter_ext.
  intros type. apply has_records_stored.
Qed.

Lemma extract_spf_keys usualResults :
  keys (extract_spf usualResults [])
  = if has_records match obj_get usualResults "TXT" with
                   | Some txt => filter is_spf txt
                   | None => []
                   end
    then ["SPF (TXT)"] else [].
Proof.
  unfold extract_spf. destruct (obj_get usualResults "TXT") as [txt|]; auto.
  rewrite positive_length. now destruct (filter is_spf txt).
Qed.

Lemma lookup_result_email_keys net p c :
  keys (Result.emailSecurity (lookup_result net p c))
  = ((if has_records match obj_get (Result.usual (lookup_result net p c)) "TXT" with
                     | Some txt => filter is_spf txt
                     | None => []
                     end
      then ["SPF (TXT)"] else [])
     ++ map Probe.label
          (filter (fun record =>
                     has_records (answer_of net (PROVIDERS p)
                                            (probe_domain c record)
                                            (Probe.type record)))
                  RECORD_TYPES.emailSecurity))%list.
Proof.
  cbn [lookup_result Result.usual Result.emailSecurity]. unfold email_results.
  rewrite collect_keys; auto using labels_NoDup.
  - now rewrite extract_spf_keys.
  - intros x Hx. rewrite extract_spf_keys.
    destruct (has_records _); cbn [In]; [|tauto].
    intros [E|[]]. symmetry in E. now apply label_not_spf in E.
Qed.

(** X4.  The keys of the two mappings of a result, and so the two lists of
    [getAvailableRecords], come in the order of the configuration whatever
    the answers are: the types that obtained a record, in the order of
    [RECORD_TYPES.usual]; then [SPF (TXT)] first if a TXT record matched,
    followed by the labels of the probes that obtained a record, in the order
    of [RECORD_TYPES.emailSecurity].  Without a result both lists are
    empty. *)
Theorem results_follow_configuration net w :
  (results w = None ->
   getAvailableRecords w
   = {| Available.usual := []; Available.emailSecurity := [] |})
  /\ (trim (domain w) <> "" ->
      exists r w',
        handleLookup net w = (Normal tt, w') /\ results w' = Some r
        /\ Available.usual (getAvailableRecords w') = keys (Result.usual r)
        /\ Available.emailSecurity (getAvailableRecords w')
           = keys (Result.emailSecurity r)
        /\ keys (Result.usual r)
           = filter (fun type =>
                       has_records (answer_of net (PROVIDERS (provider w))
                                              (clean (domain w)) type))
                    RECORD_TYPES.usual
        /\ keys (Result.emailSecurity r)
           = ((if has_records match obj_get (Result.usual r) "TXT" with
                              | Some txt => filter is_spf txt
                              | None => []
                              end
               then ["SPF (TXT)"] else [])
              ++ map Probe.label
                   (filter (fun record =>
                              has_records
                                (answer_of net (PROVIDERS (provider w))
                                           (probe_domain (clean (domain w)) record)
                                           (Probe.type record)))
                           RECORD_TYPES.emailSecurity))%list).
Proof.
  split.
  - intros H. unfold getAvailableRecords. now rewrite H.
  - intros H. exists (lookup_result net (provider w) (clean (domain w))).
    exists (after_lookup net w).
    split; [now apply handleLookup_runs|].
    repeat (split; [reflexivity|]).
    split; [apply lookup_result_usual_keys|apply lookup_result_email_keys].
Qed.

Lemma results_follow_configuration_witness :
  trim (domain (set_domain "a.com" initial)) <> ""
  /\ exists r w',
       handleLookup (answering "a.com" "NS" [sample_record "ns1.a.com."])
                    (set_domain "a.com" initial) = (Normal tt, w')
       /\ results w' = Some r
       /\ Available.usual (getAvailableRecords w') = ["NS"]
       /\ Available.emailSecurity (getAvailableRecords w') = [].
Proof.
  assert (H : trim (domain (set_domain "a.com" initial)) <> "")
    by (vm_compute; discriminate).
  split; [exact H|].
  destruct (proj2 (results_follow_configuration
                     (answering "a.com" "NS" [sample_record "ns1.a.com."])
                     (set_domain "a.com" initial)) H)
    as (r & w' & E & Hr & Hu & He & Ku & Ke).
  exists r, w'. split; [exact E|]. split; [exact Hr|]. split.
  - rewrite Hu, Ku. reflexivity.
  - rewrite He, Ke.
    vm_compute in E. injection E as <-. vm_compute in Hr. injection Hr as <-.
    reflexivity.
Defined.

Lemma stored_records p type answer :
  Forall2 (fun record kept =>
             RR.name kept = RR.name record /\ RR.type kept = RR.type record
             /\ RR.TTL kept = RR.TTL record
             /\ (if String.eqb type "CAA" && String.eqb p "cloudflare"
                 then parseCAA (RR.data record) = Normal (RR.data kept)
                 else kept = record))
          answer (stored p type answer).
Proof.
  unfold stored.
  destruct (String.eqb type "CAA" && String.eqb p "cloudflare").
  - induction answer as [|a l IH]; cbn [map]; constructor; auto.
    cbn. repeat split. unfold decoded.
    now destruct (parseCAA_returns (RR.data a)) as [r ->].
  - induction answer as [|a l IH]; constructor; auto.
Qed.

(** X5.  What a result holds under a type are the records of the answer, as
    many and in the same order, with their name, type and TTL; only for the
    type [CAA] with the provider [cloudflare] is the data replaced, by what
    [parseCAA] returns for it, and otherwise each record is kept as it came.
    Under the label of a probe the answer is kept as it came. *)
Theorem answers_are_kept net w :
  trim (domain w) <> "" ->
  exists r w',
    handleLookup net w = (Normal tt, w') /\ results w' = Some r
    /\ (forall type kept,
          obj_get (Result.usual r) type = Some kept ->
          Forall2 (fun record kept =>
                     RR.name kept = RR.name record
                     /\ RR.type kept = RR.type record
                     /\ RR.TTL kept = RR.TTL record
                     /\ (if String.eqb type "CAA"
                            && String.eqb (provider w) "cloudflare"
                         then parseCAA (RR.data record) = Normal (RR.data kept)
                         else kept = record))
                  (answer_of net (PROVIDERS (provider w)) (clean (domain w)) type)
                  kept)
    /\ (forall record,
          In record RECORD_TYPES.emailSecurity ->
          forall kept,
            obj_get (Result.emailSecurity r) (Probe.label record) = Some kept ->
            kept = answer_of net (PROVIDERS (provider w))
                             (probe_domain (clean (domain w)) record)
                             (Probe.type record)).
Proof.
  intros H. exists (lookup_result net (provider w) (clean (domain w))).
  exists (after_lookup net w).
  split; [now apply handleLookup_runs|]. split; [reflexivity|]. split.
  - intros type kept E. apply lookup_result_usual_get in E.
    destruct E as (_ & -> & _). apply stored_records.
  - intros record Hin kept E. apply lookup_result_email_get in E.
    destruct E as [(E & _)|(x & Hx & E & -> & _)].
    + now apply label_not_spf in E.
    + apply probe_label_injective in E; auto. now subst x.
Qed.

Lemma answers_are_kept_witness :
  trim (domain (typed "a.com" "cloudflare" initial)) <> ""
  /\ exists r,
       results (snd (handleLookup
                       (answering "a.com" "CAA"
                          [sample_record "\# 8 00 05 69 73 73 75 65 3b"])
                       (typed "a.com" "cloudflare" initial))) = Some r
       /\ exists kept,
            obj_get (Result.usual r) "CAA" = Some [kept]
            /\ parseCAA "\# 8 00 05 69 73 73 75 65 3b" = Normal (RR.data kept).
Proof.
  assert (H : trim (domain (typed "a.com" "cloudflare" initial)) <> "")
    by (vm_compute; discriminate).
  split; [exact H|].
  destruct (answers_are_kept
              (answering "a.com" "CAA"
                 [sample_record "\# 8 00 05 69 73 73 75 65 3b"]) _ H)
    as (r & w' & E & Hr & Hu & _).
  exists r. rewrite E. split; [exact Hr|].
  assert (G : exists kept, obj_get (Result.usual r) "CAA" = Some kept).
  { vm_compute in E. injection E as <-. vm_compute in Hr. injection Hr as <-.
    eexists. vm_compute. reflexivity. }
  destruct G as [kept G]. pose proof (Hu _ _ G) as F.
  vm_compute answer_of in F.
  inversion F as [|? k ? ks [_ [_ [_ Hk]]] F']; subst. inversion F'; subst.
  exists k. split; [exact G|exact Hk].
Defined.




(** ** One lookup after another *)

(** X7.  A lookup replaces what was there: from two worlds with the same
    typed domain (not blank) and the same provider, whatever their previous
    results, error and loading flag, it ends with the same results, no
    error and [loading] false; nothing is cached, so a second lookup in a
    row issues the same requests again, gives the same results, and pushes
    the same state once more. *)
Theorem lookup_replaces_previous net w w0 :
  trim (domain w) <> "" ->
  domain w0 = domain w -> provider w0 = provider w ->
  exists w1 w1' w2,
    handleLookup net w = (Normal tt, w1)
    /\ handleLookup net w0 = (Normal tt, w1')
    /\ results w1' = results w1 /\ error w1' = "" /\ loading w1' = false
    /\ handleLookup net w1 = (Normal tt, w2)
    /\ results w2 = results w1
    /\ requests w2
       = (requests w ++ lookup_requests (provider w) (clean (domain w))
          ++ lookup_requests (provider w) (clean (domain w)))%list
    /\ history w2
       = (history w ++ [(clean (domain w), provider w);
                        (clean (domain w), provider w)])%list.
Proof.
  intros H Ed Ep.
  exists (after_lookup net w), (after_lookup net w0),
    (after_lookup net (after_lookup net w)).
  split; [now apply handleLookup_runs|].
  split; [apply handleLookup_runs; now rewrite Ed|].
  split; [cbn [after_lookup results]; now rewrite Ed, Ep|].
  split; [reflexivity|]. split; [reflexivity|].
  split; [now apply handleLookup_runs|].
  split; [reflexivity|].
  cbn [after_lookup requests history domain provider].
  now rewrite <- !app_assoc.
Qed.

Lemma lookup_replaces_previous_witness :
  exists w1 w1' w2,
    handleLookup offline (set_domain "a.com" initial) = (Normal tt, w1)
    /\ handleLookup offline
         (set_error "Error: stale" (set_loading true (set_domain "a.com" initial)))
       = (Normal tt, w1')
    /\ results w1' = results w1 /\ error w1' = "" /\ loading w1' = false
    /\ handleLookup offline w1 = (Normal tt, w2)
    /\ results w2 = results w1
    /\ List.length (requests w2) = 26%nat
    /\ List.length (history w2) = 2%nat.
Proof.
  destruct (lookup_replaces_previous offline (set_domain "a.com" initial)
              (set_error "Error: stale"
                 (set_loading true (set_domain "a.com" initial))))
    as (w1 & w1' & w2 & E1 & E1' & Hr & He & Hl & E2 & Hr2 & Hq & Hh);
    [vm_compute; discriminate|reflexivity|reflexivity|].
  exists w1, w1', w2. repeat (split; [assumption|]).
  rewrite Hq, Hh. split; reflexivity.
Defined.

Lemma longer_is_other pre c : pre <> "" -> c <> pre ++ c.
Proof.
  intros N E. apply (f_equal String.length) in E.
  rewrite length_append in E. destruct pre; [congruence|]. cbn in E. lia.
Qed.

(** X8.  No query is sent twice in a lookup: the requests of a lookup are
    pairwise different, for every cleaned domain and every provider. *)
Theorem lookup_requests_differ p cleanDomain :
  NoDup (lookup_requests p cleanDomain).
Proof.
  unfold lookup_requests, requests_of, probe_domain, query_url.
  destruct (PROVIDERS p) as [endpoint|]; [|constructor].
  cbn [flat_map RECORD_TYPES.usual RECORD_TYPES.emailSecurity app append
       Probe.name Probe.type].
  repeat (constructor;
          [cbn [In]; intros H;
           repeat (destruct H as [H|H];
                   [ injection H; intros; try discriminate;
                     match goal with
                     | E : _ = _ :> string |- _ =>
                         apply (f_equal String.length) in E;
                         cbn [String.length] in E; lia
                     end
                   | ]);
           exact H
          | ]).
  constructor.
Qed.

(** ** queryDNS *)

(** X9.  [queryDNS] changes nothing but the list of requests, to which it
    adds the one URL of the endpoint with the name and the type when there
    is an endpoint, and nothing when there is none; it returns a body
    exactly when the fetch resolved with an ok status and a body that
    parses, and then that body; it throws in every other case, with the
    status in the message when the status is not ok. *)
Theorem queryDNS_contract net recordDomain recordType providerUrl w :
  exists c,
    queryDNS net recordDomain recordType providerUrl w
    = (c, advance (requests_of providerUrl recordDomain recordType) [] w)
    /\ (forall j,
          c = Normal j <->
          exists endpoint r,
            providerUrl = Some endpoint
            /\ net (query_url endpoint recordDomain recordType) = Some r
            /\ ok r = true /\ json r = Some j)
    /\ ((exists e, c = Throw e) <->
        query_throws net providerUrl recordDomain recordType = true)
    /\ (forall endpoint r,
          providerUrl = Some endpoint ->
          net (query_url endpoint recordDomain recordType) = Some r ->
          ok r = false ->
          c = Throw (Error ("HTTP error! status: " ++ toString (Int (status r))))).
Proof.
  eexists. split; [apply queryDNS_run|].
  unfold query_throws, query_fails.
  destruct providerUrl as [endpoint|];
    [destruct (net (query_url endpoint recordDomain recordType)) as [r|] eqn:En;
     [destruct (ok r) eqn:Eo; [destruct (json r) as [j|] eqn:Ej|]|]|];
    cbn [negb orb];
    repeat split; intros;
    repeat match goal with
           | H : exists _, _ |- _ => destruct H
           | H : _ /\ _ |- _ => destruct H
           | H : Some _ = Some _ |- _ => injection H as H; subst
           | H : Normal _ = Normal _ |- _ => injection H as H; subst
           end;
    try congruence; eauto 8.
Qed.

(** ** The typed domain *)

Lemma trimStart_spaces ws s :
  string_forallb isWhiteSpace ws = true -> trimStart (ws ++ s) = trimStart s.
Proof.
  induction ws as [|c ws IH]; cbn [string_forallb append trimStart]; auto.
  intros H. apply andb_true_iff in H. destruct H as [-> H]. auto.
Qed.

Lemma trimEnd_spaces ws :
  string_forallb isWhiteSpace ws = true -> trimEnd ws = "".
Proof.
  induction ws as [|c ws IH]; cbn [string_forallb trimEnd]; auto.
  intros H. apply andb_true_iff in H. destruct H as [-> H]. now rewrite IH.
Qed.

Lemma trimEnd_app_spaces s ws :
  string_forallb isWhiteSpace ws = true -> trimEnd (s ++ ws) = trimEnd s.
Proof.
  intros H. induction s as [|c s IH]; cbn [append trimEnd].
  - now apply trimEnd_spaces.
  - now rewrite IH.
Qed.

Lemma trim_padded ws1 s ws2 :
  string_forallb isWhiteSpace ws1 = true ->
  string_forallb isWhiteSpace ws2 = true ->
  trim (ws1 ++ s ++ ws2) = trim s.
Proof.
  intros H1 H2. unfold trim. rewrite trimStart_spaces by exact H1.
  induction s as [|c s IH]; cbn [append trimStart].
  - rewrite <- (append_nil_r ws2) at 1. rewrite trimStart_spaces by exact H2.
    reflexivity.
  - destruct (isWhiteSpace c); auto.
    change (String c (s ++ ws2)) with (String c s ++ ws2).
    now apply trimEnd_app_spaces.
Qed.

Lemma trimEnd_toUpperCase s : trimEnd (toUpperCase s) = toUpperCase (trimEnd s).
Proof.
  induction s as [|c s IH]; cbn [toUpperCase trimEnd]; auto.
  rewrite IH. destruct (trimEnd s); cbn [toUpperCase]; auto.
  rewrite upper_space. now destruct (isWhiteSpace c).
Qed.

Lemma trim_toUpperCase s : trim (toUpperCase s) = toUpperCase (trim s).
Proof. unfold trim. now rewrite trimStart_toUpperCase, trimEnd_toUpperCase. Qed.

Lemma handleLookup_same_clean net w d1 d2 :
  trim d1 <> "" -> trim d2 <> "" -> clean d1 = clean d2 ->
  handleLookup net (set_domain d1 w)
  = (Normal tt, set_domain d1 (after_lookup net (set_domain d2 w))).
Proof.
  intros N1 N2 E. rewrite handleLookup_runs by exact N1.
  unfold after_lookup, set_domain. cbn [domain provider requests console history].
  now rewrite E.
Qed.

(** X10.  White space around the typed domain and the case of its letters
    do not matter: for every ASCII [d], blank or not, the lookup of [d] in
    upper case between two runs of white space ends as the lookup of [d]
    does, the typed domain apart, and cleans to the same string. *)
Theorem lookup_ignores_case_and_padding net w d ws1 ws2 :
  is_ascii d = true ->
  string_forallb isWhiteSpace ws1 = true ->
  string_forallb isWhiteSpace ws2 = true ->
  clean (ws1 ++ toUpperCase d ++ ws2) = clean d
  /\ exists w',
       handleLookup net (set_domain d w) = (Normal tt, w')
       /\ handleLookup net (set_domain (ws1 ++ toUpperCase d ++ ws2) w)
          = (Normal tt, set_domain (ws1 ++ toUpperCase d ++ ws2) w').
Proof.
  intros _ H1 H2.
  assert (T : trim (ws1 ++ toUpperCase d ++ ws2) = toUpperCase (trim d))
    by now rewrite trim_padded, trim_toUpperCase.
  assert (E : clean (ws1 ++ toUpperCase d ++ ws2) = clean d)
    by (unfold clean; now rewrite T, toLowerCase_toUpperCase).
  split; [exact E|].
  destruct (String.eqb_spec (trim d) "") as [B|N].
  - exists (set_error "Please enter a domain name" (set_domain d w)).
    split; [now apply handleLookup_blank|].
    rewrite handleLookup_blank; [reflexivity|].
    cbn [set_domain domain]. now rewrite T, B.
  - exists (after_lookup net (set_domain d w)).
    split; [now apply handleLookup_runs|].
    apply handleLookup_same_clean; auto.
    rewrite T. destruct (trim d); [congruence|discriminate].
Qed.

Lemma lookup_ignores_case_and_padding_witness :
  clean (" " ++ toUpperCase "Example.com" ++ "  ") = clean "Example.com"
  /\ exists w',
       handleLookup offline (set_domain "Example.com" initial) = (Normal tt, w')
       /\ handleLookup offline
            (set_domain (" " ++ toUpperCase "Example.com" ++ "  ") initial)
          = (Normal tt, set_domain (" " ++ toUpperCase "Example.com" ++ "  ") w').
Proof.
  apply (lookup_ignores_case_and_padding offline initial "Example.com" " " "  ");
    reflexivity.
Defined.

(** ** Host names *)

Lemma host_not_space c : isHostChar c = true -> isWhiteSpace c = false.
Proof. ascii_cases c; vm_compute; congruence. Qed.

Lemma host_not_slash c : isHostChar c = true -> Ascii.eqb c "/" = false.
Proof. ascii_cases c; vm_compute; congruence. Qed.

Lemma host_lower c : isHostChar (lower c) = isHostChar c.
Proof. ascii_cases c; reflexivity. Qed.

Lemma lower_lower c : lower (lower c) = lower c.
Proof. ascii_cases c; reflexivity. Qed.

Lemma toLowerCase_idempotent s : toLowerCase (toLowerCase s) = toLowerCase s.
Proof.
  induction s; cbn [toLowerCase]; auto. now rewrite lower_lower, IHs.
Qed.

Lemma host_toLowerCase s :
  string_forallb isHostChar (toLowerCase s) = string_forallb isHostChar s.
Proof.
  induction s; cbn [toLowerCase string_forallb]; auto.
  now rewrite host_lower, IHs.
Qed.

Lemma is_hostname_inv h :
  is_hostname h = true -> h <> "" /\ string_forallb isHostChar h = true.
Proof.
  unfold is_hostname. intros H. apply andb_true_iff in H.
  destruct H as [N H]. split; auto.
  apply negb_true_iff in N. now apply String.eqb_neq.
Qed.

Lemma is_hostname_toLowerCase h :
  is_hostname h = true -> is_hostname (toLowerCase h) = true.
Proof.
  intros H. destruct (is_hostname_inv _ H) as [N A].
  unfold is_hostname. rewrite host_toLowerCase, A.
  destruct h; [congruence|reflexivity].
Qed.

Lemma host_ends_plain h :
  h <> "" -> string_forallb isHostChar h = true -> ends_plain h = true.
Proof.
  induction h as [|c h IH]; [congruence|].
  intros _ H. cbn [string_forallb] in H.
  apply andb_true_iff in H. destruct H as [Hc H].
  destruct h as [|c' h]; cbn [ends_plain].
  - now rewrite (host_not_space _ Hc), (host_not_slash _ Hc).
  - apply IH; [discriminate|exact H].
Qed.

Lemma host_trim h : is_hostname h = true -> trim h = h.
Proof.
  intros H. destruct (is_hostname_inv _ H) as [N A]. unfold trim.
  rewrite trimEnd_plain.
  - destruct h as [|c h]; auto. cbn [string_forallb] in A.
    apply andb_true_iff in A. destruct A as [Hc _].
    cbn [trimStart]. now rewrite (host_not_space _ Hc).
  - apply ends_plain_trimStart. now apply host_ends_plain.
Qed.

Lemma host_no_scheme h :
  string_forallb isHostChar h = true -> strip_scheme h = h.
Proof.
  intros A. unfold strip_scheme.
  destruct (match_scheme h) as [r|] eqn:E; auto.
  apply match_scheme_sound in E. destruct E as [-> | ->]; discriminate.
Qed.

Lemma clean_hostname h : is_hostname h = true -> clean h = toLowerCase h.
Proof.
  intros H. unfold clean. rewrite (host_trim _ H).
  apply is_hostname_toLowerCase in H. destruct (is_hostname_inv _ H) as [N A].
  rewrite (host_no_scheme _ A).
  apply strip_trailing_slash_plain. now apply host_ends_plain.
Qed.

Lemma ends_plain_app a b : b <> "" -> ends_plain (a ++ b) = ends_plain b.
Proof.
  intros N. induction a as [|c a IH]; auto.
  cbn [append]. destruct (a ++ b) as [|c' s] eqn:E.
  - destruct a; [cbn in E; congruence|discriminate].
  - exact IH.
Qed.

Lemma trimEnd_slash s : trimEnd (s ++ "/") = s ++ "/".
Proof.
  induction s as [|c s IH]; [reflexivity|].
  cbn [append trimEnd]. rewrite IH. now destruct s.
Qed.

(** X11.  A host name (letters, digits, dots and hyphens) is looked up in
    lower case, and so is the address pasted with its scheme and one
    trailing slash; cleaning it again changes nothing.  That last point
    needs the host name: [a.com//] is cleaned to [a.com/], and that to
    [a.com]. *)
Theorem hostname_is_cleaned_to_lower_case h :
  is_hostname h = true ->
  trim h <> ""
  /\ clean h = toLowerCase h
  /\ clean ("http://" ++ h) = toLowerCase h
  /\ clean ("https://" ++ h ++ "/") = toLowerCase h
  /\ clean (clean h) = clean h
  /\ clean (clean "a.com//") <> clean "a.com//".
Proof.
  intros H. destruct (is_hostname_inv _ H) as [N A].
  pose proof (is_hostname_toLowerCase _ H) as HL.
  destruct (is_hostname_inv _ HL) as [NL AL].
  split; [now rewrite host_trim|].
  split; [now apply clean_hostname|].
  split; [|split; [|split]].
  - unfold clean, trim. change (trimStart ("http://" ++ h)) with ("http://" ++ h).
    rewrite trimEnd_plain
      by (rewrite ends_plain_app by exact N; now apply host_ends_plain).
    rewrite toLowerCase_app. change (toLowerCase "http://") with "http://".
    unfold strip_scheme. rewrite match_scheme_http.
    apply strip_trailing_slash_plain. now apply host_ends_plain.
  - unfold clean, trim.
    change (trimStart ("https://" ++ h ++ "/")) with ("https://" ++ h ++ "/").
    rewrite <- append_assoc, trimEnd_slash, !toLowerCase_app.
    change (toLowerCase "https://") with "https://".
    change (toLowerCase "/") with "/". rewrite append_assoc.
    unfold strip_scheme. rewrite match_scheme_https.
    apply strip_trailing_slash_app.
  - rewrite (clean_hostname _ H), (clean_hostname _ HL).
    apply toLowerCase_idempotent.
  - vm_compute. discriminate.
Qed.

Lemma hostname_is_cleaned_to_lower_case_witness :
  is_hostname "Example.COM" = true
  /\ clean "Example.COM" = "example.com"
  /\ clean ("https://" ++ "Example.COM" ++ "/") = "example.com".
Proof.
  split; [reflexivity|].
  destruct (hostname_is_cleaned_to_lower_case "Example.COM" eq_refl)
    as (_ & E1 & _ & E2 & _).
  split; [exact E1|exact E2].
Defined.

(** ** The history *)

Lemma hostname_is_cleaned_to_lower_case_aux h :
  is_hostname h = true ->
  trim h <> "" /\ clean (clean h) = clean h /\ trim (clean h) <> "".
Proof.
  intros H. pose proof (is_hostname_toLowerCase _ H) as HL.
  destruct (is_hostname_inv _ H) as [N _].
  destruct (is_hostname_inv _ HL) as [NL _].
  rewrite (clean_hostname _ H), (clean_hostname _ HL), toLowerCase_idempotent.
  rewrite (host_trim _ H), (host_trim _ HL). auto.
Qed.

(** X12.  Going back to a lookup repeats it: the lookup of a host name [h]
    with a provider [p] pushes the state of its cleaned domain and [p], and
    [handlePopState] with that state, in whatever world it comes, types
    that domain and provider, issues the requests of the lookup again, ends
    with the same results, and pushes the same state once more. *)
Theorem popstate_repeats_lookup net w w' h p :
  is_hostname h = true -> p <> "" ->
  exists w1 w2,
    handleLookup net (typed h p w) = (Normal tt, w1)
    /\ history w1 = (history w ++ [(clean h, p)])%list
    /\ handlePopState net
         {| state := Some {| HistoryState.domain := Some (clean h);
                             HistoryState.provider := Some p |} |} w'
       = (Normal tt, w2)
    /\ results w2 = results w1
    /\ domain w2 = clean h /\ provider w2 = p
    /\ requests w2 = (requests w' ++ lookup_requests p (clean h))%list
    /\ history w2 = (history w' ++ [(clean h, p)])%list.
Proof.
  intros H Np.
  destruct (hostname_is_cleaned_to_lower_case_aux h H) as (T & I & Tc).
  exists (after_lookup net (typed h p w)).
  exists (after_lookup net (typed (clean h) p w')).
  split; [apply handleLookup_runs; exact T|]. split; [reflexivity|].
  split.
  - unfold handlePopState. cbn [state HistoryState.domain HistoryState.provider
                                truthy or_else].
    apply String.eqb_neq in Np. rewrite Np.
    destruct (String.eqb_spec (clean h) "") as [B|_].
    { exfalso. apply Tc. now rewrite B. }
    cbn [negb]. unfold bind, modify. fold (typed (clean h) p w').
    apply handleLookup_runs. exact Tc.
  - cbn [after_lookup typed set_provider set_domain results domain provider
         requests history].
    rewrite I. auto.
Qed.

Lemma popstate_repeats_lookup_witness :
  is_hostname "a.com" = true /\ "cloudflare" <> ""
  /\ exists w1 w2,
       handleLookup offline (typed "a.com" "cloudflare" initial) = (Normal tt, w1)
       /\ handlePopState offline
            {| state := Some {| HistoryState.domain := Some (clean "a.com");
                                HistoryState.provider := Some "cloudflare" |} |}
            initial
          = (Normal tt, w2)
       /\ results w2 = results w1
       /\ domain w2 = "a.com" /\ provider w2 = "cloudflare"
       /\ List.length (requests w2) = 13%nat.
Proof.
  assert (N : "cloudflare" <> "") by discriminate.
  split; [reflexivity|]. split; [exact N|].
  destruct (popstate_repeats_lookup offline initial initial "a.com" "cloudflare"
              eq_refl N)
    as (w1 & w2 & E1 & _ & E2 & Hr & Hd & Hp & Hq & _).
  exists w1, w2. repeat (split; [assumption|]).
  rewrite Hq. reflexivity.
Defined.

(** X13.  After [handleClear] there is nothing to look up and nothing to
    go back to: it empties the domain, the results and the error without a
    fetch and leaves the provider; a [handleLookup] that follows is refused
    without a fetch; and [handlePopState] for the entry it pushed, whose
    state has no domain, or for an entry without a state, in whatever world
    it comes, leaves no results, an empty domain and the provider [google],
    without a fetch and without touching the error. *)
Theorem clear_leaves_nothing_to_look_up net w :
  exists w1,
    handleClear w = (Normal tt, w1)
    /\ domain w1 = "" /\ results w1 = None /\ error w1 = ""
    /\ provider w1 = provider w /\ requests w1 = requests w
    /\ (exists w2,
          handleLookup net w1 = (Normal tt, w2)
          /\ requests w2 = requests w /\ results w2 = None
          /\ error w2 = "Please enter a domain name")
    /\ (forall event w',
          state event = None
          \/ state event = Some {| HistoryState.domain := None;
                                   HistoryState.provider := None |} ->
          exists w3,
            handlePopState net event w' = (Normal tt, w3)
            /\ results w3 = None /\ domain w3 = "" /\ provider w3 = "google"
            /\ requests w3 = requests w' /\ error w3 = error w'
            /\ history w3 = history w').
Proof.
  eexists. split; [reflexivity|]. repeat (split; [reflexivity|]). split.
  - eexists. split; [apply handleLookup_blank; reflexivity|].
    repeat split.
  - intros event w' [E|E]; unfold handlePopState; rewrite E;
      eexists; (split; [reflexivity|]); repeat split.
Qed.

Lemma member_is_no_provider q :
  In q Object_prototype_members ->
  PROVIDERS q = None /\ PROVIDERS_truthy q = true /\ q <> "" /\ q <> "google"
  /\ q <> "cloudflare".
Proof.
  cbn [Object_prototype_members In]. intros H.
  repeat (destruct H as [<-|H];
          [repeat split; try reflexivity; discriminate|]).
  destruct H.
Qed.

Lemma unknown_provider_result net w :
  trim (domain w) <> "" ->
  provider w <> "google" -> provider w <> "cloudflare" ->
  error (after_lookup net w) = ""
  /\ requests (after_lookup net w) = requests w
  /\ results (after_lookup net w)
     = Some {| Result.domain := clean (domain w); Result.provider := "1.1.1.1";
               Result.usual := []; Result.emailSecurity := [] |}.
Proof.
  intros H N1 N2. pose proof (PROVIDERS_unknown _ N1 N2) as E.
  split; [reflexivity|]. split.
  - cbn [after_lookup requests]. rewrite (lookup_requests_unknown _ _ E).
    apply app_nil_r.
  - cbn [after_lookup results]. f_equal.
    destruct (lookup_result_nothing net (provider w) (clean (domain w)))
      as [Hu He].
    + intros type _. now rewrite E.
    + intros record _. now rewrite E.
    + unfold lookup_result in *. cbn [Result.usual Result.emailSecurity] in *.
      apply String.eqb_neq in N1. rewrite N1, He, Hu. reflexivity.
Qed.

(** X14.  What [onMount] looks up for the address of the page.  With a
    domain in it, the provider [google] or [cloudflare] is taken as given;
    a missing provider, or one that is neither of the two nor the name of a
    member every object inherits, is replaced by [google]; but such a name
    ([constructor], [toString], ...) passes the test of [PROVIDERS] and is
    kept, and the lookup then ends with an empty result and no fetch.
    Without a domain, or with an empty one, nothing happens. *)
Theorem onMount_chooses_provider net w d :
  d <> "" ->
  (forall q, q = "google" \/ q = "cloudflare" ->
             onMount net (Some d) (Some q) w = handleLookup net (typed d q w))
  /\ (forall urlProvider,
        urlProvider = None
        \/ (exists q, urlProvider = Some q /\ q <> "google" /\ q <> "cloudflare"
                      /\ ~ In q Object_prototype_members) ->
        onMount net (Some d) urlProvider w
        = handleLookup net (typed d "google" w))
  /\ (forall q,
        In q Object_prototype_members -> trim d <> "" ->
        exists w',
          onMount net (Some d) (Some q) w = (Normal tt, w')
          /\ provider w' = q /\ requests w' = requests w /\ error w' = ""
          /\ results w'
             = Some {| Result.domain := clean d; Result.provider := "1.1.1.1";
                       Result.usual := []; Result.emailSecurity := [] |})
  /\ (forall urlProvider,
        onMount net None urlProvider w = (Normal tt, w)
        /\ onMount net (Some "") urlProvider w = (Normal tt, w)).
Proof.
  intros N. apply String.eqb_neq in N.
  split; [|split; [|split]].
  - intros q [-> | ->]; unfold onMount; cbn [truthy or_else]; rewrite N;
      reflexivity.
  - intros up [->|(q & -> & N1 & N2 & Nm)]; unfold onMount;
      cbn [truthy or_else]; rewrite N; cbn [negb andb]; [reflexivity|].
    destruct (String.eqb q ""); cbn [negb andb]; [reflexivity|].
    unfold PROVIDERS_truthy. rewrite (PROVIDERS_unknown _ N1 N2).
    destruct (existsb (String.eqb q) Object_prototype_members) eqn:E;
      [|reflexivity].
    apply existsb_exists in E. destruct E as (m & Hm & E).
    apply String.eqb_eq in E. subst m. contradiction.
  - intros q Hq T.
    destruct (member_is_no_provider _ Hq) as (P & Pt & Nq & N1 & N2).
    assert (T' : trim (domain (typed d q w)) <> "") by exact T.
    destruct (unknown_provider_result net (typed d q w) T' N1 N2)
      as (He & Hreq & Hres).
    exists (after_lookup net (typed d q w)).
    split; [|repeat split; assumption].
    unfold onMount. cbn [truthy or_else]. rewrite N.
    apply String.eqb_neq in Nq. rewrite Nq, Pt. cbn [negb andb].
    unfold bind, modify. fold (typed d q w). now apply handleLookup_runs.
  - intros up. split; reflexivity.
Qed.

Lemma onMount_chooses_provider_witness :
  "a.com" <> ""
  /\ onMount offline (Some "a.com") (Some "quad9") initial
     = handleLookup offline (typed "a.com" "google" initial)
  /\ exists w',
       onMount offline (Some "a.com") (Some "constructor") initial
       = (Normal tt, w')
       /\ provider w' = "constructor" /\ requests w' = requests initial
       /\ error w' = ""
       /\ results w'
          = Some {| Result.domain := clean "a.com"; Result.provider := "1.1.1.1";
                    Result.usual := []; Result.emailSecurity := [] |}.
Proof.
  assert (N : "a.com" <> "") by discriminate.
  split; [exact N|].
  destruct (onMount_chooses_provider offline initial "a.com" N)
    as (_ & Hg & Hm & _).
  split.
  - apply Hg. right. exists "quad9". split; [reflexivity|].
    split; [discriminate|]. split; [discriminate|].
    cbn [Object_prototype_members In]. intuition discriminate.
  - apply Hm; [cbn; tauto|vm_compute; discriminate].
Defined.

(** ** The diagnostics *)



